(** * Polling evaluation engine of [src/evaluation/llm_evaluation.py]

    A shallow embedding of the judge adapters, the API-key resolution, the
    test-case normalisation and the batched multi-judge ("polling")
    evaluation loop, followed by the properties of the written
    specification that concern them.

    Conventions of the embedding.
    - A Python call that may raise is a function into [result]; [Err e]
      is the raised exception, and sequencing stops at the first one.
    - Scores and costs are IEEE doubles in the source.  They are idealised
      here as exact rationals ([Qc]); [nan], which numpy returns for the
      mean of an empty array, is kept as a separate value.
    - [math.ceil (n / b)] is read as the exact integer ceiling (the two
      agree for every list length below 2^53).
    - What lives outside the file (the deepeval [evaluate] driver, the HTTP
      clients of the judge back ends, the process environment) is a
      parameter of the section that uses it. *)

From Stdlib Require Import QArith Qcanon Qround Lqa.
From stdpp Require Import gmap strings list fin_maps numbers.

Close Scope Q_scope.
Close Scope Qc_scope.
Local Open Scope string_scope.

(** ** Exceptions and the error monad *)

Inductive PyError :=
  | TypeError (msg : string)
  | ValueError (msg : string)
  | KeyError (key : string)
  | IndexError
  | AttributeError (attr : string)
  | ZeroDivisionError
  | NotImplementedError (msg : string)
  | UpstreamError (msg : string).

Inductive result (A : Type) :=
  | Ok (a : A)
  | Err (e : PyError).
Arguments Ok {A} a.
Arguments Err {A} e.

Definition rbind {A B} (x : result A) (k : A -> result B) : result B :=
  match x with
  | Ok a => k a
  | Err e => Err e
  end.

Notation "'do' x <- e ; k" := (rbind e (fun x => k))
  (at level 10, x name, e at level 100, k at level 200).

Fixpoint rmap {A B} (f : A -> result B) (l : list A) : result (list B) :=
  match l with
  | [] => Ok []
  | a :: l' => do b <- f a; do bs <- rmap f l'; Ok (b :: bs)
  end.

(** ** Data model *)

(** An Evaluation Input: deepeval's [LLMTestCase], restricted to the three
    fields this file reads and writes. *)
Record LLMTestCase := {
  tc_input : string;
  tc_actual_output : string;
  tc_retrieval_context : list string
}.

(** Values that occur in the mapping records handed to the engine. *)
Inductive PyVal :=
  | VNone
  | VBool (b : bool)
  | VInt (z : Z)
  | VStr (s : string)
  | VStrList (l : list string).

(** One element of the [test_cases] argument as the caller may pass it. *)
Inductive TestCaseInput :=
  | InTestCase (tc : LLMTestCase)
  | InDict (data : gmap string PyVal)
  | InOther (v : PyVal).

(** The three adapter classes; only their [model] attribute matters to the
    engine. *)
Record CustomCohere := { cohere_model : string; cohere_api_key : string }.
Record CustomAnthropic := { anthropic_model : string; anthropic_api_key : string }.
Record CustomAzureOpenAI := { azure_model : string }.

Inductive DeepEvalBaseLLM :=
  | Cohere (c : CustomCohere)
  | Anthropic (a : CustomAnthropic)
  | AzureOpenAI (z : CustomAzureOpenAI).

Definition get_model_name (llm : DeepEvalBaseLLM) : string :=
  match llm with
  | Cohere c => cohere_model c
  | Anthropic a => anthropic_model a
  | AzureOpenAI z => azure_model z
  end.

(** A judge: [str | DeepEvalBaseLLM]. *)
Inductive Model :=
  | Named (name : string)
  | Custom (llm : DeepEvalBaseLLM).

(** [model if isinstance(model, str) else model.model] *)
Definition model_name (model : Model) : string :=
  match model with
  | Named name => name
  | Custom llm => get_model_name llm
  end.

(** The value travelling through the [threshhold] parameter: a float by
    annotation, the [show_eval_progress] boolean at the polling call site. *)
Inductive Threshold :=
  | ThFloat (q : Qc)
  | ThBool (b : bool).

(** Argument values of the metric constructor call. *)
Inductive PyArg :=
  | ArgModel (m : Model)
  | ArgThreshold (t : Threshold).

(** ** Keyword-argument binding

    [bind_keywords params kwargs] binds a call made with keyword arguments
    only against a parameter list ([None]: no default).  An unknown keyword
    and a missing argument are both a [TypeError]. *)

Fixpoint assoc {V} (k : string) (l : list (string * V)) : option V :=
  match l with
  | [] => None
  | (k', v) :: l' => if String.eqb k k' then Some v else assoc k l'
  end.

Fixpoint unexpected_keyword {V D} (params : list (string * D))
    (kwargs : list (string * V)) : option string :=
  match kwargs with
  | [] => None
  | (k, _) :: kwargs' =>
      match assoc k params with
      | Some _ => unexpected_keyword params kwargs'
      | None => Some k
      end
  end.

Fixpoint bind_params {V} (params : list (string * option V))
    (kwargs : list (string * V)) : result (list (string * V)) :=
  match params with
  | [] => Ok []
  | (p, dflt) :: params' =>
      match assoc p kwargs, dflt with
      | Some v, _ | None, Some v =>
          do rest <- bind_params params' kwargs; Ok ((p, v) :: rest)
      | None, None =>
          Err (TypeError ("missing 1 required positional argument: " ++ p))
      end
  end.

Definition bind_keywords {V} (params : list (string * option V))
    (kwargs : list (string * V)) : result (list (string * V)) :=
  match unexpected_keyword params kwargs with
  | Some k => Err (TypeError ("got an unexpected keyword argument " ++ k))
  | None => bind_params params kwargs
  end.

(** ** Test cases and their normalisation *)

(** Modelled from the spec: the constructor of deepeval's [LLMTestCase],
    which the source imports.  The data model gives an Evaluation
    Input exactly the fields [input : text], [actual_output : text] and
    [retrieval_context : ordered sequence of text]; a keyword call that
    lacks one of them, carries another keyword, or passes a value of
    another type raises. *)
Definition LLMTestCase_new (data : gmap string PyVal) : result LLMTestCase :=
  match data !! "input", data !! "actual_output", data !! "retrieval_context" with
  | Some (VStr i), Some (VStr o), Some (VStrList c) =>
      if decide (delete "input" (delete "actual_output"
                   (delete "retrieval_context" data)) = ∅)
      then Ok {| tc_input := i; tc_actual_output := o; tc_retrieval_context := c |}
      else Err (TypeError "got an unexpected keyword argument")
  | _, _, _ => Err (TypeError "missing or ill-typed argument")
  end.

(** The mapping record that carries the fields of a test case. *)
Definition to_record (tc : LLMTestCase) : gmap string PyVal :=
  <["input" := VStr (tc_input tc)]>
    (<["actual_output" := VStr (tc_actual_output tc)]>
      (<["retrieval_context" := VStrList (tc_retrieval_context tc)]> ∅)).

Definition test_case_message : string :=
  "Test cases must be a list of LLMTestCase objects or a list of dictionaries containing the keys: ['input', 'actual_output', 'retrieval_context']".

(** [isinstance(test_case, LLMTestCase)] *)
Definition is_test_case (x : TestCaseInput) : bool :=
  match x with InTestCase _ => true | _ => false end.

(** The elements of a list on which [is_test_case] holds throughout. *)
Fixpoint as_test_cases (l : list TestCaseInput) : list LLMTestCase :=
  match l with
  | [] => []
  | InTestCase tc :: l' => tc :: as_test_cases l'
  | _ :: l' => as_test_cases l'
  end.

(** The constructor applied to an unpacked element; unpacking anything
    but a mapping is a [TypeError]. *)
Definition build_test_case (x : TestCaseInput) : result LLMTestCase :=
  match x with
  | InDict data => LLMTestCase_new data
  | _ => Err (TypeError "argument after ** must be a mapping")
  end.

Definition _check_test_case_types (test_cases : list TestCaseInput)
    : result (list LLMTestCase) :=
  if forallb is_test_case test_cases then Ok (as_test_cases test_cases)
  else
    match test_cases with
    | InDict _ :: _ =>
        match rmap build_test_case test_cases with
        | Ok tcs => Ok tcs
        | Err _ => Err (ValueError test_case_message)
        end
    | _ => Err (ValueError test_case_message)
    end.

(** ** The engine object *)

Record PollingEvaluation := { batch_size : Z }.

Definition batch_size_message : string := "Batch size must be greater than 1".

(** [PollingEvaluation.__init__] *)
Definition PollingEvaluation_init (batch_size : Z) : result PollingEvaluation :=
  if (batch_size <=? 1)%Z then Err (ValueError batch_size_message)
  else Ok {| batch_size := batch_size |}.

(** ** Batching *)

(** A slice bound as Python normalises it against a length. *)
Definition slice_bound (len k : Z) : Z :=
  if (k <? 0)%Z then Z.max 0 (k + len) else Z.min k len.

(** [l[lo:hi]] *)
Definition py_slice {A} (l : list A) (lo hi : Z) : list A :=
  let len := Z.of_nat (length l) in
  let lo' := slice_bound len lo in
  let hi' := slice_bound len hi in
  take (Z.to_nat (hi' - lo')) (drop (Z.to_nat lo') l).

(** [ceil(n / b)], the ceiling of the true quotient. *)
Definition ceil_div (n b : Z) : result Z :=
  if (b =? 0)%Z then Err ZeroDivisionError else Ok (- ((- n) / b))%Z.

(** [ceil(len(test_cases) / self.batch_size)] *)
Definition num_batches (self : PollingEvaluation) (test_cases : list LLMTestCase)
    : result Z :=
  ceil_div (Z.of_nat (length test_cases)) (batch_size self).

(** [test_cases[i * self.batch_size : (i + 1) * self.batch_size]] *)
Definition batch_at (self : PollingEvaluation) (test_cases : list LLMTestCase)
    (i : nat) : list LLMTestCase :=
  py_slice test_cases (Z.of_nat i * batch_size self)
                      ((Z.of_nat i + 1) * batch_size self).

(** [range(n)] *)
Definition py_range (n : Z) : list nat := seq 0 (Z.to_nat n).

(** The batches the outer loop of [polling_evaluation] forms, in order. *)
Definition batches (self : PollingEvaluation) (test_cases : list LLMTestCase)
    : result (list (list LLMTestCase)) :=
  do nb <- num_batches self test_cases;
  Ok (map (batch_at self test_cases) (py_range nb)).

(** ** Numbers: the fragment of numpy the engine uses *)

Inductive npfloat :=
  | Num (q : Qc)
  | NaN.

Definition Qc_sum (l : list Qc) : Qc := foldr Qcplus (Q2Qc 0) l.

Definition Qc_of_nat (n : nat) : Qc := Qc_of_Z (Z.of_nat n).

(** The arithmetic mean of a non-empty list: every entry with weight
    [1 / length]. *)
Definition arith_mean (l : list Qc) : Qc := (Qc_sum l / Qc_of_nat (length l))%Qc.

(** [np.mean] of a one-dimensional array; [nan] when it is empty. *)
Definition np_mean (v : list Qc) : npfloat :=
  match v with
  | [] => NaN
  | _ => Num (arith_mean v)
  end.

(** What [np.array] builds from a list of rows: a one-dimensional empty
    array from no rows, a [length rows] x [width] matrix from rows of one
    length. *)
Inductive ndarray :=
  | Arr1 (v : list Qc)
  | Arr2 (rows : list (list Qc)) (width : nat).

(** [np.array(rows)]; rows of different lengths do not form an array. *)
Definition np_array (rows : list (list Qc)) : result ndarray :=
  match rows with
  | [] => Ok (Arr1 [])
  | r :: rest =>
      if forallb (fun r' => Nat.eqb (length r') (length r)) rest
      then Ok (Arr2 rows (length r))
      else Err (ValueError "setting an array element with a sequence")
  end.

(** The [j]-th column of a list of rows. *)
Definition column (j : nat) (rows : list (list Qc)) : list Qc :=
  omap (fun r : list Qc => r !! j) rows.

(** The result of a reduction: a scalar, or a one-dimensional array. *)
Inductive reduced :=
  | Scalar (x : npfloat)
  | Vector (v : list Qc).

(** [np.mean(a, axis=0)] *)
Definition np_mean_axis0 (a : ndarray) : reduced :=
  match a with
  | Arr1 v => Scalar (np_mean v)
  | Arr2 rows width =>
      Vector (map (fun j => arith_mean (column j rows)) (seq 0 width))
  end.

(** [np.mean(x)] of an earlier reduction. *)
Definition np_mean_reduced (x : reduced) : npfloat :=
  match x with
  | Scalar s => s
  | Vector v => np_mean v
  end.

(** Rounding to the nearest integer, ties to the even one. *)
Definition round_half_even (x : Qc) : Z :=
  let n := Qnum x in
  let d := Zpos (Qden x) in
  let q := (n / d)%Z in
  let r := (n mod d)%Z in
  match (2 * r ?= d)%Z with
  | Lt => q
  | Gt => (q + 1)%Z
  | Eq => if Z.even q then q else (q + 1)%Z
  end.

Definition pow10 (ndigits : nat) : Qc := Qc_of_Z (10 ^ Z.of_nat ndigits).

(** [round(x, ndigits)] on a finite value. *)
Definition round_digits (x : Qc) (ndigits : nat) : Qc :=
  (Qc_of_Z (round_half_even (x * pow10 ndigits)) / pow10 ndigits)%Qc.

(** [round(x, ndigits)] *)
Definition py_round (x : npfloat) (ndigits : nat) : npfloat :=
  match x with
  | Num q => Num (round_digits q ndigits)
  | NaN => NaN
  end.

(** ** The metric *)

(** The state [GEval.__init__] receives from [AnswerCorrectnessMetric]. *)
Record GEval := {
  geval_name : string;
  geval_evaluation_steps : list string;
  geval_model : PyArg;
  geval_threshold : PyArg;
  geval_evaluation_params : list string
}.

Definition AnswerCorrectnessMetric_name : string := "AnswerCorrectness".

Definition AnswerCorrectnessMetric_evaluation_steps : list string :=
  [ "Compare the actual output with the retrieval context to verify factual accuracy.";
    "Assess if the actual output effectively addresses the specific information requirement stated in the input.";
    "Determine the comprehensiveness of the actual output in addressing all key aspects mentioned in the input.";
    "If there is not enough information in the retrieval context to correctly answer the input, and the actual output indicates that the input cannot be answered with the provided context, then return a score of 10." ].

Definition AnswerCorrectnessMetric_evaluation_params : list string :=
  [ "input"; "actual_output"; "retrieval_context" ].

(** The documented default threshold, 0.8. *)
Definition default_threshold : Threshold := ThFloat (Q2Qc (8 # 10)).

(** The parameters of [AnswerCorrectnessMetric.__init__] after [self]:
    [evaluation_model] without a default, [threshold] with one. *)
Definition AnswerCorrectnessMetric_params : list (string * option PyArg) :=
  [ ("evaluation_model", None);
    ("threshold", Some (ArgThreshold default_threshold)) ].

(** A keyword call of the class. *)
Definition AnswerCorrectnessMetric_new (kwargs : list (string * PyArg))
    : result GEval :=
  do args <- bind_keywords AnswerCorrectnessMetric_params kwargs;
  match assoc "evaluation_model" args, assoc "threshold" args with
  | Some evaluation_model, Some threshold =>
      Ok {| geval_name := AnswerCorrectnessMetric_name;
            geval_evaluation_steps := AnswerCorrectnessMetric_evaluation_steps;
            geval_model := evaluation_model;
            geval_threshold := threshold;
            geval_evaluation_params := AnswerCorrectnessMetric_evaluation_params |}
  | _, _ => Err (TypeError "unbound parameter")
  end.

(** The error of a keyword call that names its first argument [model]. *)
Definition unexpected_model_keyword : PyError :=
  TypeError "got an unexpected keyword argument model".

(** ** Evaluation responses *)

(** What deepeval reports per metric and per test case. *)
Record MetricData := {
  md_score : Qc;
  md_reason : string;
  md_class_name : string;
  md_evaluation_cost : option Qc;
  md_evaluation_model : string;
  md_verdicts : option (list string)
}.

Record TestResult := {
  tr_metrics_data : list MetricData;
  tr_input : string;
  tr_actual_output : string;
  tr_retrieval_context : list string
}.

Record EvaluationResult := { test_results : list TestResult }.

Record EvalResponse := {
  score : Qc;
  reason : string;
  metric : string;
  cost : option Qc;
  eval_model : string;
  verdicts : option (list string);
  input : option string;
  actual_output : option string;
  retrieval_context : option (list string)
}.

(** The two arguments of [load_eval_response] as their annotations and
    type tests distinguish them: one metric or a list of metrics, a test
    case or a test result. *)
Inductive MetricArg :=
  | OneMetric (m : MetricData)
  | MetricList (l : list MetricData).

Inductive CaseArg :=
  | OfTestCase (tc : LLMTestCase)
  | OfTestResult (r : TestResult).

Definition case_input (c : CaseArg) : string :=
  match c with
  | OfTestCase tc => tc_input tc
  | OfTestResult r => tr_input r
  end.

Definition case_actual_output (c : CaseArg) : string :=
  match c with
  | OfTestCase tc => tc_actual_output tc
  | OfTestResult r => tr_actual_output r
  end.

Definition case_retrieval_context (c : CaseArg) : list string :=
  match c with
  | OfTestCase tc => tc_retrieval_context tc
  | OfTestResult r => tr_retrieval_context r
  end.

Definition multiple_metrics_message : string :=
  "Multiple metrics not supported yet for this loading function".

Definition load_eval_response (metric : MetricArg) (test_case : CaseArg)
    (return_context_data : bool) : result EvalResponse :=
  do metric <-
    match test_case, metric with
    | OfTestResult _, MetricList l =>
        if (1 <? length l)%nat
        then Err (NotImplementedError multiple_metrics_message)
        else match l with
             | m :: _ => Ok m
             | [] => Err IndexError
             end
    | OfTestCase _, MetricList _ => Err (AttributeError "score")
    | _, OneMetric m => Ok m
    end;
  Ok {| score := md_score metric;
        reason := md_reason metric;
        metric := md_class_name metric;
        cost := md_evaluation_cost metric;
        eval_model := md_evaluation_model metric;
        verdicts := match md_verdicts metric with
                    | Some (v :: vs) => Some (v :: vs)
                    | _ => None
                    end;
        input := Some (case_input test_case);
        actual_output := Some (case_actual_output test_case);
        retrieval_context := if return_context_data
                             then Some (case_retrieval_context test_case)
                             else None |}.

(** ** Single-judge evaluation *)

(** The cost entry of a results dictionary: a number, or the string
    ["N/A"]. *)
Inductive Cost :=
  | CostNum (q : Qc)
  | CostNA.

Record EACResult := {
  eac_model : string;
  eac_results : list EvalResponse;
  eac_scores : list Qc;
  eac_cost : Cost
}.

Inductive EACReturn :=
  | RawResponses (r : EvaluationResult)
  | ResultsDict (d : EACResult).

(** Truth value of a cost: [None] and [0.0] are false. *)
Definition cost_truthy (c : option Qc) : bool :=
  match c with
  | Some q => negb (Qc_eq_bool q (Q2Qc 0))
  | None => false
  end.
Arguments cost_truthy : simpl never.

(** [[r.cost for r in eval_responses if r.cost]] *)
Definition truthy_costs (eval_responses : list EvalResponse) : list Qc :=
  omap (fun r => if cost_truthy (cost r) then cost r else None) eval_responses.

(** [sum(cost) if any(cost) else "N/A"] *)
Definition total_cost (costs : list Qc) : Cost :=
  if existsb (fun q => cost_truthy (Some q)) costs
  then CostNum (Qc_sum costs)
  else CostNA.

(** [r.metrics_data[0]] *)
Definition first_metric (r : TestResult) : result MetricData :=
  match tr_metrics_data r with
  | m :: _ => Ok m
  | [] => Err IndexError
  end.

(** The body of [evaluate_answer_correctness] from [if return_raw] on. *)
Definition eac_finish (model_name : string) (return_raw : bool)
    (responses : EvaluationResult) : result EACReturn :=
  if return_raw then Ok (RawResponses responses)
  else
    do eval_responses <-
      rmap (fun r => do m <- first_metric r;
                     load_eval_response (OneMetric m) (OfTestResult r) true)
           (test_results responses);
    let scores := map score eval_responses in
    let cost := truthy_costs eval_responses in
    let cost := total_cost cost in
    Ok (ResultsDict {| eac_model := model_name;
                       eac_results := eval_responses;
                       eac_scores := scores;
                       eac_cost := cost |}).

(** The signature of the bound method [self.evaluate_answer_correctness]:
    test cases, judge, [threshhold], [return_raw]. *)
Definition eac_method : Type :=
  list LLMTestCase -> Model -> Threshold -> bool -> result EACReturn.

(** ** The polling loop *)

(** One judge's accumulator in [results_dict]. *)
Record JudgeAccum := {
  results : list EvalResponse;
  scores : list Qc;
  cost_per_batch : list Cost
}.

Definition empty_accum : JudgeAccum :=
  {| results := []; scores := []; cost_per_batch := [] |}.

Record EvaluationResults := {
  responses : gmap string JudgeAccum;
  mean_scores : reduced;
  evaluation_score : npfloat
}.

(** The three accumulator updates after one single-judge evaluation. *)
Definition record_batch (results_dict : gmap string JudgeAccum)
    (name : string) (model_results : EACResult)
    : result (gmap string JudgeAccum) :=
  match results_dict !! name with
  | Some acc =>
      Ok (<[name := {| results := results acc ++ eac_results model_results;
                       scores := scores acc ++ eac_scores model_results;
                       cost_per_batch :=
                         cost_per_batch acc ++ [eac_cost model_results] |}]>
            results_dict)
  | None => Err (KeyError name)
  end.

(** [results_dict[model_name]["scores"]] *)
Definition scores_of (results_dict : gmap string JudgeAccum) (name : string)
    : result (list Qc) :=
  match results_dict !! name with
  | Some acc => Ok (scores acc)
  | None => Err (KeyError name)
  end.

Section Polling.

(** The method that the lookup [self.evaluate_answer_correctness]
    yields at the call inside the loop. *)
Variable method : eac_method.
Variable self : PollingEvaluation.

(** The inner loop, over the judges, for one batch. *)
Fixpoint judges_loop (batch : list LLMTestCase) (show_eval_progress : bool)
    (models : list Model) (results_dict : gmap string JudgeAccum)
    : result (gmap string JudgeAccum) :=
  match models with
  | [] => Ok results_dict
  | model :: models' =>
      let model_name := model_name model in
      do ret <- method batch model (ThBool show_eval_progress) false;
      match ret with
      | ResultsDict model_results =>
          do results_dict' <- record_batch results_dict model_name model_results;
          judges_loop batch show_eval_progress models' results_dict'
      | RawResponses _ =>
          Err (TypeError "object is not subscriptable")
      end
  end.

(** The outer loop, over the batch indices. *)
Fixpoint batches_loop (test_cases : list LLMTestCase)
    (show_eval_progress : bool) (models : list Model) (indices : list nat)
    (results_dict : gmap string JudgeAccum)
    : result (gmap string JudgeAccum) :=
  match indices with
  | [] => Ok results_dict
  | i :: indices' =>
      let batch := batch_at self test_cases i in
      do results_dict' <-
        judges_loop batch show_eval_progress models results_dict;
      batches_loop test_cases show_eval_progress models indices' results_dict'
  end.

Definition polling_evaluation_with (test_cases : list TestCaseInput)
    (models : list Model) (show_eval_progress : bool)
    : result EvaluationResults :=
  do test_cases <- _check_test_case_types test_cases;
  do num_batches <- num_batches self test_cases;
  let model_names := map model_name models in
  let results_dict : gmap string JudgeAccum :=
    list_to_map (map (fun name => (name, empty_accum)) model_names) in
  do results_dict <-
    batches_loop test_cases show_eval_progress models (py_range num_batches)
                 results_dict;
  do rows <- rmap (scores_of results_dict) model_names;
  do model_scores <- np_array rows;
  let mean_scores := np_mean_axis0 model_scores in
  let evaluation_score := np_mean_reduced mean_scores in
  Ok {| responses := results_dict;
        mean_scores := mean_scores;
        evaluation_score := py_round evaluation_score 3 |}.

End Polling.

Section Engine.

(** deepeval's [evaluate], called with the test cases and the metric
    list; the progress and printing flags do not reach the result. *)
Variable evaluate : list LLMTestCase -> list GEval -> result EvaluationResult.

Definition evaluate_answer_correctness (self : PollingEvaluation)
    (test_cases : list LLMTestCase) (model : Model) (threshhold : Threshold)
    (return_raw : bool) : result EACReturn :=
  let model_name := model_name model in
  do ac_metric <-
    AnswerCorrectnessMetric_new
      [ ("model", ArgModel model); ("threshold", ArgThreshold threshhold) ];
  do responses <- evaluate test_cases [ac_metric];
  eac_finish model_name return_raw responses.

(** [polling_evaluation]: the loop over the method of this class. *)
Definition polling_evaluation (self : PollingEvaluation)
    (test_cases : list TestCaseInput) (models : list Model)
    (show_eval_progress : bool) : result EvaluationResults :=
  polling_evaluation_with (evaluate_answer_correctness self) self
    test_cases models show_eval_progress.

End Engine.

(** A method that answers from a table of verdicts: the body of
    [evaluate_answer_correctness] with the metric construction and the
    deepeval driver replaced by one verdict per judge name and test case. *)
Definition scripted_method (verdict : string -> LLMTestCase -> MetricData)
    : eac_method :=
  fun test_cases model _ return_raw =>
    let model_name := model_name model in
    let responses :=
      {| test_results :=
           map (fun tc => {| tr_metrics_data := [verdict model_name tc];
                             tr_input := tc_input tc;
                             tr_actual_output := tc_actual_output tc;
                             tr_retrieval_context := tc_retrieval_context tc |})
               test_cases |} in
    eac_finish model_name return_raw responses.

(** ** Judge adapters *)

Inductive CustomApiKeyEnum :=
  | cohere
  | anthropic.

(** [env_value.value] *)
Definition enum_value (e : CustomApiKeyEnum) : string :=
  match e with
  | cohere => "COHERE_API_KEY"
  | anthropic => "ANTHROPIC_API_KEY"
  end.

Definition api_key_message (variable : string) : string :=
  "Default api_key expects " ++ variable ++
  " environment variable. Check that you have this variable or pass in another api_key.".

(** Truth value of [api_key : str | None]. *)
Definition key_truthy (api_key : option string) : bool :=
  match api_key with
  | Some "" | None => false
  | Some _ => true
  end.

Definition _handle_api_key (environ : gmap string string)
    (env_value : CustomApiKeyEnum) (api_key : option string) : result string :=
  let from_environ :=
    match environ !! enum_value env_value with
    | Some v => Ok v
    | None => Err (ValueError (api_key_message (enum_value env_value)))
    end in
  match api_key with
  | Some key => if key_truthy api_key then Ok key else from_environ
  | None => from_environ
  end.

Definition CustomCohere_init (environ : gmap string string) (model : string)
    (api_key : option string) : result CustomCohere :=
  do key <- _handle_api_key environ cohere api_key;
  Ok {| cohere_model := model; cohere_api_key := key |}.

Definition CustomAnthropic_init (environ : gmap string string) (model : string)
    (api_key : option string) : result CustomAnthropic :=
  do key <- _handle_api_key environ anthropic api_key;
  Ok {| anthropic_model := model; anthropic_api_key := key |}.

Definition CustomAzureOpenAI_init (deployment_name : string)
    : result CustomAzureOpenAI :=
  Ok {| azure_model := deployment_name |}.

(** Objects as the back ends return them: enough structure for truth
    tests, attribute reads and indexing. *)
Unset Elimination Schemes.
Inductive PyObj :=
  | ONone
  | OStr (s : string)
  | OList (items : list PyObj)
  | OObject (attrs : list (string * PyObj)).
Set Elimination Schemes.

(** [if response:] *)
Definition truthy (o : PyObj) : bool :=
  match o with
  | ONone => false
  | OStr s => negb (String.eqb s "")
  | OList items => match items with [] => false | _ => true end
  | OObject _ => true
  end.

(** [o.name] *)
Definition getattr (o : PyObj) (name : string) : result PyObj :=
  match o with
  | OObject attrs =>
      match assoc name attrs with
      | Some v => Ok v
      | None => Err (AttributeError name)
      end
  | _ => Err (AttributeError name)
  end.

(** [o[0]] *)
Definition first_item (o : PyObj) : result PyObj :=
  match o with
  | OList (x :: _) => Ok x
  | OList [] => Err IndexError
  | OStr (String c _) => Ok (OStr (String c ""))
  | OStr "" => Err IndexError
  | _ => Err (TypeError "object is not subscriptable")
  end.

(** The client objects [load_model] builds. *)
Inductive Client :=
  | CohereClient (async_mode : bool) (api_key : string)
  | AnthropicClient (async_mode : bool) (api_key : string)
  | AzureClient (async_mode : bool) (azure_endpoint : string)
      (api_key api_version : option string).

(** The one request each adapter sends. *)
Inductive Call :=
  | Chat (message model : string) (max_tokens : Z)
  | MessagesCreate (max_tokens : Z) (content model : string)
  | ChatCompletionsCreate (model content : string) (max_tokens : Z).

Section Adapters.

(** The back end: what a request through a client returns or raises. *)
Variable upstream : Client -> Call -> result PyObj.
Variable environ : gmap string string.

Definition CustomCohere_load_model (self : CustomCohere) (async_mode : bool)
    : result Client :=
  Ok (CohereClient async_mode (cohere_api_key self)).

Definition CustomCohere_generate (self : CustomCohere) (prompt : string)
    : result PyObj :=
  do client <- CustomCohere_load_model self false;
  do response <- upstream client (Chat prompt (cohere_model self) 1024);
  if truthy response then getattr response "text"
  else Ok (OStr "No message returned").

Definition CustomCohere_a_generate (self : CustomCohere) (prompt : string)
    : result PyObj :=
  do aclient <- CustomCohere_load_model self true;
  do response <- upstream aclient (Chat prompt (cohere_model self) 1024);
  if truthy response then getattr response "text"
  else Ok (OStr "No message returned").

Definition CustomAnthropic_load_model (self : CustomAnthropic)
    (async_mode : bool) : result Client :=
  Ok (AnthropicClient async_mode (anthropic_api_key self)).

Definition CustomAnthropic_generate (self : CustomAnthropic) (prompt : string)
    : result PyObj :=
  do client <- CustomAnthropic_load_model self false;
  do message <-
    upstream client (MessagesCreate 1024 prompt (anthropic_model self));
  if truthy message then
    do content <- getattr message "content";
    do block <- first_item content;
    getattr block "text"
  else Ok (OStr "no message returned").

Definition CustomAnthropic_a_generate (self : CustomAnthropic)
    (prompt : string) : result PyObj :=
  do aclient <- CustomAnthropic_load_model self true;
  do message <-
    upstream aclient (MessagesCreate 1024 prompt (anthropic_model self));
  if truthy message then
    do content <- getattr message "content";
    do block <- first_item content;
    getattr block "text"
  else Ok (OStr "no message returned").

(** [os.environ[...]] for the endpoint, [os.getenv] for the other two. *)
Definition CustomAzureOpenAI_load_model (self : CustomAzureOpenAI)
    (async_mode : bool) : result Client :=
  match environ !! "AZURE_OPENAI_ENDPOINT" with
  | Some endpoint =>
      Ok (AzureClient async_mode endpoint
            (environ !! "AZURE_OPENAI_API_KEY")
            (environ !! "AZURE_OPENAI_API_VERSION"))
  | None => Err (KeyError "AZURE_OPENAI_ENDPOINT")
  end.

Definition CustomAzureOpenAI_generate (self : CustomAzureOpenAI)
    (prompt : string) : result PyObj :=
  do client <- CustomAzureOpenAI_load_model self false;
  do completion <-
    upstream client (ChatCompletionsCreate (azure_model self) prompt 1024);
  if truthy completion then
    do choices <- getattr completion "choices";
    do choice <- first_item choices;
    do message <- getattr choice "message";
    getattr message "content"
  else Ok (OStr "no message returned").

Definition CustomAzureOpenAI_a_generate (self : CustomAzureOpenAI)
    (prompt : string) : result PyObj :=
  do aclient <- CustomAzureOpenAI_load_model self true;
  do completion <-
    upstream aclient (ChatCompletionsCreate (azure_model self) prompt 1024);
  if truthy completion then
    do choices <- getattr completion "choices";
    do choice <- first_item choices;
    do message <- getattr choice "message";
    getattr message "content"
  else Ok (OStr "no message returned").

(** Method dispatch on the adapter instance. *)
Definition generate (llm : DeepEvalBaseLLM) (prompt : string) : result PyObj :=
  match llm with
  | Cohere c => CustomCohere_generate c prompt
  | Anthropic a => CustomAnthropic_generate a prompt
  | AzureOpenAI z => CustomAzureOpenAI_generate z prompt
  end.

Definition a_generate (llm : DeepEvalBaseLLM) (prompt : string)
    : result PyObj :=
  match llm with
  | Cohere c => CustomCohere_a_generate c prompt
  | Anthropic a => CustomAnthropic_a_generate a prompt
  | AzureOpenAI z => CustomAzureOpenAI_a_generate z prompt
  end.

End Adapters.

(** The three back-end families, and the construction of an adapter of a
    family from a model name and an optional key (the Azure OpenAI class
    takes a deployment name only). *)
Inductive Family :=
  | FCohere
  | FAnthropic
  | FAzureOpenAI.

Definition adapter_new (environ : gmap string string) (family : Family)
    (model : string) (api_key : option string) : result DeepEvalBaseLLM :=
  match family with
  | FCohere => do c <- CustomCohere_init environ model api_key; Ok (Cohere c)
  | FAnthropic =>
      do a <- CustomAnthropic_init environ model api_key; Ok (Anthropic a)
  | FAzureOpenAI => do z <- CustomAzureOpenAI_init model; Ok (AzureOpenAI z)
  end.

(** The variable each family takes its credential from. *)
Definition credential_variable (family : Family) : string :=
  match family with
  | FCohere => enum_value cohere
  | FAnthropic => enum_value anthropic
  | FAzureOpenAI => "AZURE_OPENAI_API_KEY"
  end.

Definition family_of (llm : DeepEvalBaseLLM) : Family :=
  match llm with
  | Cohere _ => FCohere
  | Anthropic _ => FAnthropic
  | AzureOpenAI _ => FAzureOpenAI
  end.


(** ** Auxiliary definitions for the statements *)

(** Whether [needle] occurs in [hay]. *)
Fixpoint occurs_in (needle hay : string) : bool :=
  String.prefix needle hay
  || match hay with
     | String _ rest => occurs_in needle rest
     | EmptyString => false
     end.

(** The key an adapter instance holds, if its class keeps one. *)
Definition api_key_of (llm : DeepEvalBaseLLM) : option string :=
  match llm with
  | Cohere c => Some (cohere_api_key c)
  | Anthropic a => Some (anthropic_api_key a)
  | AzureOpenAI _ => None
  end.



(** ** Sample data *)

(** A back end that answers every request with [None]. *)
Definition silent_upstream : Client -> Call -> result PyObj :=
  fun _ _ => Ok ONone.



Definition azure_environ : gmap string string :=
  {[ "AZURE_OPENAI_ENDPOINT" := "https://example.openai.azure.com" ]}.

Definition sample_case (query : string) : LLMTestCase :=
  {| tc_input := query;
     tc_actual_output := "answer to " ++ query;
     tc_retrieval_context := [ "passage for " ++ query ] |}.

(** Seven test cases, as in the scenario of the specification. *)
Definition sample_cases : list LLMTestCase :=
  map sample_case [ "a"; "bb"; "ccc"; "dddd"; "eeeee"; "ffffff"; "ggggggg" ].

Definition sample_models : list Model :=
  [ Named "judge-a";
    Custom (AzureOpenAI {| azure_model := "judge-b" |}) ].

(** An accumulator after the answers [rs] of one judge, batch after batch,
    have been recorded on top of [acc]. *)
Definition extend_accum (acc : JudgeAccum) (rs : list EACResult) : JudgeAccum :=
  {| results := results acc ++ concat (map eac_results rs);
     scores := scores acc ++ concat (map eac_scores rs);
     cost_per_batch := cost_per_batch acc ++ map eac_cost rs |}.




(** The engine of the scenario: batch size 3. *)
Definition sample_engine : PollingEvaluation := {| batch_size := 3 |}.

(** A table of verdicts: the first judge scores a case by the length of
    its query and reports a cost, the other judges score 1/2 and report
    none. *)
Definition sample_verdict (judge : string) (tc : LLMTestCase) : MetricData :=
  {| md_score := if String.eqb judge "judge-a"
                 then Q2Qc (Z.of_nat (String.length (tc_input tc)) # 10)
                 else Q2Qc (1 # 2);
     md_reason := "rubric applied";
     md_class_name := "AnswerCorrectnessMetric";
     md_evaluation_cost := if String.eqb judge "judge-a"
                           then Some (Q2Qc (1 # 4)) else None;
     md_evaluation_model := judge;
     md_verdicts := None |}.


Definition no_results : EvaluationResults :=
  {| responses := ∅; mean_scores := Scalar NaN; evaluation_score := NaN |}.

(** The result of a run, [no_results] standing in for a raised error. *)
Definition result_of (run : result EvaluationResults) : EvaluationResults :=
  match run with
  | Ok res => res
  | Err _ => no_results
  end.

(** The scenario: seven cases, batch size 3, two judges. *)
Definition sample_run : result EvaluationResults :=
  polling_evaluation_with (scripted_method sample_verdict) sample_engine
    (map InTestCase sample_cases) sample_models false.



(** The cost a response contributes to a sum: nothing when it reports
    none. *)
Definition reported_cost (resp : EvalResponse) : Qc :=
  match cost resp with
  | Some q => q
  | None => Q2Qc 0
  end.

(** A judge's entry of [results_dict] as the dictionary the source builds,
    key by key. *)
Inductive PyEntry :=
  | PyResponses (l : list EvalResponse)
  | PyScores (l : list Qc)
  | PyCosts (l : list Cost)
  | PyCost (c : Cost).

Definition accum_dict (acc : JudgeAccum) : gmap string PyEntry :=
  <["results" := PyResponses (results acc)]>
    (<["scores" := PyScores (scores acc)]>
      (<["cost_per_batch" := PyCosts (cost_per_batch acc)]> ∅)).

(** ** Test-case assembly *)

(** [l[i]] for a non-negative index. *)
Definition py_index {A} (l : list A) (i : nat) : result A :=
  match l !! i with
  | Some x => Ok x
  | None => Err IndexError
  end.

(** [enumerate(l)] *)
Definition enumerate {A} (l : list A) : list (nat * A) :=
  zip (seq 0 (length l)) l.

(** [zip(a, b, c)]: as long as the shortest argument. *)
Fixpoint zip3 {A B C} (a : list A) (b : list B) (c : list C)
    : list (A * B * C) :=
  match a, b, c with
  | x :: a', y :: b', z :: c' => (x, y, z) :: zip3 a' b' c'
  | _, _, _ => []
  end.

(** The first exception among [outcomes], looked up in the order
    [finished] in which the awaitables complete. *)
Fixpoint first_raised {A} (finished : list nat) (outcomes : list (result A))
    : option PyError :=
  match finished with
  | [] => None
  | i :: finished' =>
      match outcomes !! i with
      | Some (Err e) => Some e
      | _ => first_raised finished' outcomes
      end
  end.

(** [await gather(...)] over awaitables with the given outcomes: the
    results in argument order when all succeed, otherwise the exception of
    the awaitable that fails first in time. *)
Definition gather {A} (finished : list nat) (outcomes : list (result A))
    : result (list A) :=
  match first_raised finished outcomes with
  | Some e => Err e
  | None => rmap (fun o => o) outcomes
  end.

Section TestCaseGenerator.

(** The ranked passages a search returns: a list of dictionaries whose
    content only the collaborators read. *)
Variable Passages : Type.

(** [self.retriever.hybrid_search(query, collection_name, limit=limit)] *)
Variable hybrid_search : string -> string -> Z -> result Passages.
(** [self.reranker.rerank(result, query, top_k=top_k)] *)
Variable rerank : Passages -> string -> Z -> result Passages.
(** [self.llm.achat_completion(system_message, user_message,
    temperature=..., max_tokens=..., **kwargs)] *)
Variable achat_completion :
  string -> string -> Qc -> Z -> list (string * PyVal) -> result string.
(** The prompt templates of [src.llm.prompt_templates]. *)
Variable huberman_system_message : string.
Variable generate_prompt_series : string -> Passages -> result string.
Variable create_context_blocks : Passages -> result (list string).
(** The order in which the concurrent completions finish. *)
Variable finished : list nat.

Definition retrieve_results (queries : list string) (collection_name : string)
    (limit top_k : Z) : result (list Passages) :=
  do results <-
    rmap (fun query => hybrid_search query collection_name limit) queries;
  do reranked <-
    rmap (fun '(i, result) =>
            do query <- py_index queries i; rerank result query top_k)
         (enumerate results);
  Ok reranked.

Definition aget_actual_outputs (user_messages : list string)
    (temperature : Qc) (max_tokens : Z) (kwargs : list (string * PyVal))
    : result (list string) :=
  let tasks :=
    map (fun user_message =>
           achat_completion huberman_system_message user_message temperature
             max_tokens kwargs)
        user_messages in
  do responses <- gather finished tasks;
  Ok responses.

(** The keyword call [LLMTestCase(input=..., actual_output=...,
    retrieval_context=...)]. *)
Definition new_test_case (x : string * string * list string)
    : result LLMTestCase :=
  let '(input, output, context) := x in
  LLMTestCase_new
    (<["input" := VStr input]>
       (<["actual_output" := VStr output]>
          (<["retrieval_context" := VStrList context]> ∅))).

Definition acreate_test_cases (queries : list string) (collection_name : string)
    (retrieve_limit top_k : Z) : result (list LLMTestCase) :=
  do reranked_results <-
    retrieve_results queries collection_name retrieve_limit top_k;
  do user_messages <-
    rmap (fun '(i, rerank) =>
            do query <- py_index queries i; generate_prompt_series query rerank)
         (enumerate reranked_results);
  do actual_outputs <- aget_actual_outputs user_messages (Q2Qc 1) 500 [];
  do retrieval_contexts <- rmap create_context_blocks reranked_results;
  do test_cases <-
    rmap new_test_case (zip3 queries actual_outputs retrieval_contexts);
  Ok test_cases.

(** What the assembly does for one query: search, rerank, prompt,
    completion with temperature 1.0 and 500 tokens, context blocks. *)
Definition assembled (collection_name : string) (retrieve_limit top_k : Z)
    (query : string) (tc : LLMTestCase) : Prop :=
  exists r rr prompt out context,
    hybrid_search query collection_name retrieve_limit = Ok r
    /\ rerank r query top_k = Ok rr
    /\ generate_prompt_series query rr = Ok prompt
    /\ achat_completion huberman_system_message prompt (Q2Qc 1) 500 [] = Ok out
    /\ create_context_blocks rr = Ok context
    /\ tc = {| tc_input := query; tc_actual_output := out;
               tc_retrieval_context := context |}.

End TestCaseGenerator.

(** Sample collaborators: a search that returns numbered passages for any
    query but the empty one, a reranker that keeps the first [top_k], a
    model that echoes its prompt. *)
Definition sample_search (query collection_name : string) (limit : Z)
    : result (list string) :=
  if String.eqb query "" then Err (UpstreamError "empty query")
  else Ok [ query ++ " #1"; query ++ " #2"; query ++ " #3"; query ++ " #4" ].

Definition sample_rerank (passages : list string) (query : string) (top_k : Z)
    : result (list string) :=
  Ok (take (Z.to_nat top_k) passages).

Definition sample_chat (system_message user_message : string)
    (temperature : Qc) (max_tokens : Z) (kwargs : list (string * PyVal))
    : result string :=
  Ok ("reply to " ++ user_message).

Definition sample_prompt (query : string) (passages : list string)
    : result string :=
  Ok ("question: " ++ query).

Definition sample_blocks (passages : list string) : result (list string) :=
  Ok passages.

(** A test result as the driver reports it for the first sample case. *)
Definition sample_test_result : TestResult :=
  {| tr_metrics_data := [ sample_verdict "judge-a" (sample_case "a") ];
     tr_input := "a";
     tr_actual_output := "answer to a";
     tr_retrieval_context := [ "passage for a" ] |}.

(** ** The calls of the polling loop *)

(** The (batch, judge) pairs in the order in which the nested loops reach
    them. *)
Definition schedule (bs : list (list LLMTestCase)) (models : list Model)
    : list (list LLMTestCase * Model) :=
  flat_map (fun batch => map (pair batch) models) bs.

(** The loop body of [polling_evaluation] run over a list of (batch,
    judge) pairs. *)
Fixpoint calls_loop (method : eac_method) (show_eval_progress : bool)
    (calls : list (list LLMTestCase * Model))
    (results_dict : gmap string JudgeAccum)
    : result (gmap string JudgeAccum) :=
  match calls with
  | [] => Ok results_dict
  | (batch, model) :: calls' =>
      do ret <- method batch model (ThBool show_eval_progress) false;
      match ret with
      | ResultsDict model_results =>
          do results_dict' <-
            record_batch results_dict (model_name model) model_results;
          calls_loop method show_eval_progress calls' results_dict'
      | RawResponses _ => Err (TypeError "object is not subscriptable")
      end
  end.

(** The dictionary the loop starts from. *)
Definition initial_dict (models : list Model) : gmap string JudgeAccum :=
  list_to_map (map (fun name => (name, empty_accum)) (map model_name models)).




(** ** The requests of the adapters *)

(** What a request carries: the prompt, the model and the token limit. *)
Definition call_prompt (call : Call) : string :=
  match call with
  | Chat message _ _ => message
  | MessagesCreate _ content _ => content
  | ChatCompletionsCreate _ content _ => content
  end.

Definition call_model (call : Call) : string :=
  match call with
  | Chat _ model _ => model
  | MessagesCreate _ _ model => model
  | ChatCompletionsCreate model _ _ => model
  end.

Definition call_max_tokens (call : Call) : Z :=
  match call with
  | Chat _ _ max_tokens => max_tokens
  | MessagesCreate max_tokens _ _ => max_tokens
  | ChatCompletionsCreate _ _ max_tokens => max_tokens
  end.

(** Whether a client is the asynchronous one, and the credential it was
    built with. *)
Definition client_async (client : Client) : bool :=
  match client with
  | CohereClient async_mode _ => async_mode
  | AnthropicClient async_mode _ => async_mode
  | AzureClient async_mode _ _ _ => async_mode
  end.

Definition client_key (client : Client) : option string :=
  match client with
  | CohereClient _ api_key => Some api_key
  | AnthropicClient _ api_key => Some api_key
  | AzureClient _ _ api_key _ => api_key
  end.

(** The client built with the same arguments for the other mode. *)
Definition with_mode (async_mode : bool) (client : Client) : Client :=
  match client with
  | CohereClient _ api_key => CohereClient async_mode api_key
  | AnthropicClient _ api_key => AnthropicClient async_mode api_key
  | AzureClient _ azure_endpoint api_key api_version =>
      AzureClient async_mode azure_endpoint api_key api_version
  end.



Definition capped_upstream : Client -> Call -> result PyObj :=
  fun _ call =>
    if (call_max_tokens call <=? 1024)%Z then Ok ONone
    else Err (UpstreamError "max_tokens too large").
(** * Properties *)

(** ** General facts about the error monad *)

Lemma rbind_Ok {A B} (x : result A) (k : A -> result B) (b : B) :
  rbind x k = Ok b -> exists a, x = Ok a /\ k a = Ok b.
Proof. destruct x as [a|e]; simpl; [eauto | discriminate]. Qed.

Lemma rmap_length {A B} (f : A -> result B) (l : list A) (bs : list B) :
  rmap f l = Ok bs -> length bs = length l.
Proof.
  revert bs. induction l as [|a l IH]; simpl; intros bs H.
  - by injection H as <-.
  - apply rbind_Ok in H as (b & _ & H). apply rbind_Ok in H as (bs' & Hl & H).
    injection H as <-. simpl. f_equal. by apply IH.
Qed.

Lemma rmap_Forall2 {A B} (f : A -> result B) (l : list A) (bs : list B) :
  rmap f l = Ok bs <-> Forall2 (fun a b => f a = Ok b) l bs.
Proof.
  split.
  - revert bs. induction l as [|a l IH]; simpl; intros bs H.
    + injection H as <-. constructor.
    + apply rbind_Ok in H as (b & Hb & H). apply rbind_Ok in H as (bs' & Hl & H).
      injection H as <-. constructor; auto.
  - induction 1 as [|a b l bs' Hab _ IH]; simpl; [done|].
    by rewrite Hab, IH.
Qed.

(** ** Batching *)

Lemma py_slice_nat {A} (l : list A) (lo hi : nat) :
  lo <= hi ->
  py_slice l (Z.of_nat lo) (Z.of_nat hi) = take (hi - lo) (drop lo l).
Proof.
  intros Hle. unfold py_slice, slice_bound.
  destruct (Z.ltb_spec (Z.of_nat lo) 0) as [?|_]; [lia|].
  destruct (Z.ltb_spec (Z.of_nat hi) 0) as [?|_]; [lia|].
  destruct (decide (length l <= lo)) as [Hlo|Hlo].
  - rewrite (drop_ge l lo) by done.
    rewrite drop_ge by lia. by rewrite !take_nil.
  - replace (Z.to_nat (Z.min (Z.of_nat lo) (Z.of_nat (length l)))) with lo by lia.
    destruct (decide (length l <= hi)) as [Hhi|Hhi].
    + rewrite !take_ge; [done | rewrite length_drop; lia | rewrite length_drop; lia].
    + f_equal. lia.
Qed.

Lemma batch_at_take_drop (self : PollingEvaluation)
    (test_cases : list LLMTestCase) (i : nat) :
  (0 <= batch_size self)%Z ->
  batch_at self test_cases i =
    take (Z.to_nat (batch_size self))
         (drop (i * Z.to_nat (batch_size self)) test_cases).
Proof.
  intros Hb. unfold batch_at.
  set (b := Z.to_nat (batch_size self)).
  replace (Z.of_nat i * batch_size self)%Z with (Z.of_nat (i * b)) by lia.
  replace ((Z.of_nat i + 1) * batch_size self)%Z
    with (Z.of_nat (i * b + b)) by lia.
  rewrite py_slice_nat by lia. f_equal. lia.
Qed.

Lemma concat_chunks {A} (l : list A) (b k : nat) :
  concat (map (fun i => take b (drop (i * b) l)) (seq 0 k)) = take (k * b) l.
Proof.
  induction k as [|k IH]; [done|].
  rewrite seq_S, map_app, concat_app, IH. simpl. rewrite app_nil_r.
  rewrite take_take_drop. f_equal. lia.
Qed.

Lemma ceil_div_bounds (n b q : Z) :
  (0 < b)%Z -> ceil_div n b = Ok q -> ((q - 1) * b < n <= q * b)%Z.
Proof.
  intros Hb. unfold ceil_div.
  destruct (Z.eqb_spec b 0) as [?|_]; [lia|]. intros [= <-].
  pose proof (Z.div_mod (- n) b ltac:(lia)) as Hdm.
  pose proof (Z.mod_pos_bound (- n) b Hb) as Hm. nia.
Qed.

Lemma ceil_div_Ok (n b : Z) : (b <> 0)%Z -> exists q, ceil_div n b = Ok q.
Proof.
  intros Hb. unfold ceil_div. destruct (Z.eqb_spec b 0); [done|eauto].
Qed.

Lemma batches_Ok (self : PollingEvaluation) (test_cases : list LLMTestCase) :
  (0 < batch_size self)%Z ->
  exists nb, num_batches self test_cases = Ok nb
    /\ ((nb - 1) * batch_size self < Z.of_nat (length test_cases)
        <= nb * batch_size self)%Z
    /\ batches self test_cases
       = Ok (map (batch_at self test_cases) (py_range nb)).
Proof.
  intros Hb. unfold batches, num_batches.
  destruct (ceil_div_Ok (Z.of_nat (length test_cases)) (batch_size self))
    as [nb Hnb]; [lia|].
  exists nb. rewrite Hnb. split; [done|]. split; [|done].
  by apply ceil_div_bounds.
Qed.

Lemma concat_batches (self : PollingEvaluation) (test_cases : list LLMTestCase)
    (nb : Z) :
  (0 < batch_size self)%Z ->
  (Z.of_nat (length test_cases) <= nb * batch_size self)%Z ->
  concat (map (batch_at self test_cases) (py_range nb)) = test_cases.
Proof.
  intros Hb Hn. unfold py_range.
  rewrite (map_ext _ (fun i => take (Z.to_nat (batch_size self))
                          (drop (i * Z.to_nat (batch_size self)) test_cases))).
  2: { intros i. apply batch_at_take_drop. lia. }
  rewrite concat_chunks. apply take_ge. nia.
Qed.



(** ** Normalisation of the test cases *)

Lemma LLMTestCase_new_to_record (tc : LLMTestCase) :
  LLMTestCase_new (to_record tc) = Ok tc.
Proof.
  destruct tc as [i o c]. unfold LLMTestCase_new, to_record. simpl.
  rewrite lookup_insert_eq.
  rewrite lookup_insert_ne, lookup_insert_eq by done.
  rewrite !lookup_insert_ne, lookup_insert_eq by done.
  rewrite decide_True; [done|].
  apply map_eq. intros k. rewrite lookup_empty.
  destruct (decide (k = "input")) as [->|?];
    [by rewrite lookup_delete_eq | rewrite lookup_delete_ne by done].
  destruct (decide (k = "actual_output")) as [->|?];
    [by rewrite lookup_delete_eq | rewrite lookup_delete_ne by done].
  destruct (decide (k = "retrieval_context")) as [->|?];
    [by rewrite lookup_delete_eq | rewrite lookup_delete_ne by done].
  by rewrite !lookup_insert_ne, lookup_empty.
Qed.


Lemma forallb_is_test_case (l : list TestCaseInput) :
  forallb is_test_case l = true <-> l = map InTestCase (as_test_cases l).
Proof.
  induction l as [|[tc|d|v] l IH]; simpl; try by intuition discriminate.
  - rewrite IH. split; [by intros <- | by intros [= <-]].
  - split; [done|]. intros H.
    apply (f_equal length) in H. simpl in H. rewrite length_map in H.
    assert (length (as_test_cases l) <= length l); [|lia].
    clear. induction l as [|[] l IH]; simpl; lia.
  - split; [done|]. intros H.
    apply (f_equal length) in H. simpl in H. rewrite length_map in H.
    assert (length (as_test_cases l) <= length l); [|lia].
    clear. induction l as [|[] l IH]; simpl; lia.
Qed.

Lemma as_test_cases_map (tcs : list LLMTestCase) :
  as_test_cases (map InTestCase tcs) = tcs.
Proof. induction tcs as [|tc tcs IH]; simpl; by f_equal. Qed.





(** ** API keys *)

Lemma handle_api_key_explicit (environ : gmap string string)
    (env_value : CustomApiKeyEnum) (key : string) :
  key_truthy (Some key) = true ->
  _handle_api_key environ env_value (Some key) = Ok key.
Proof. intros H. unfold _handle_api_key. by rewrite H. Qed.

Lemma handle_api_key_environ (environ : gmap string string)
    (env_value : CustomApiKeyEnum) (api_key : option string) :
  key_truthy api_key = false ->
  _handle_api_key environ env_value api_key
  = match environ !! enum_value env_value with
    | Some v => Ok v
    | None => Err (ValueError (api_key_message (enum_value env_value)))
    end.
Proof.
  intros H. unfold _handle_api_key. destruct api_key as [key|]; [|done].
  by rewrite H.
Qed.

(** C10, as the code has it.  The Cohere and Anthropic adapters, built
    without a key (none, or the empty string), take the key from
    [COHERE_API_KEY] and [ANTHROPIC_API_KEY], and their construction raises
    the [ValueError] that names the variable when it is not set; a key that
    is passed is kept without a look at the environment.  The Azure OpenAI
    adapter takes no key and reads no variable when it is built: its
    construction succeeds in every environment, and a missing
    [AZURE_OPENAI_ENDPOINT] surfaces as a [KeyError] at [generate] and
    [a_generate]. *)
Theorem api_key_resolution (environ : gmap string string) (family : Family)
    (model : string) (api_key : option string) :
  family <> FAzureOpenAI ->
  (key_truthy api_key = false ->
     match environ !! credential_variable family with
     | Some v =>
         exists llm, adapter_new environ family model api_key = Ok llm
           /\ family_of llm = family
           /\ get_model_name llm = model
           /\ api_key_of llm = Some v
     | None =>
         adapter_new environ family model api_key
         = Err (ValueError (api_key_message (credential_variable family)))
     end)
  /\ (forall key, api_key = Some key -> key_truthy api_key = true ->
        exists llm, adapter_new environ family model api_key = Ok llm
          /\ family_of llm = family
          /\ get_model_name llm = model
          /\ api_key_of llm = Some key)
  /\ occurs_in (credential_variable family)
       (api_key_message (credential_variable family)) = true
  /\ adapter_new environ FAzureOpenAI model api_key
     = Ok (AzureOpenAI {| azure_model := model |})
  /\ (forall upstream prompt,
        environ !! "AZURE_OPENAI_ENDPOINT" = None ->
        generate upstream environ (AzureOpenAI {| azure_model := model |}) prompt
        = Err (KeyError "AZURE_OPENAI_ENDPOINT")
        /\ a_generate upstream environ
             (AzureOpenAI {| azure_model := model |}) prompt
           = Err (KeyError "AZURE_OPENAI_ENDPOINT")).
Proof.
  intros Hfam. split; [|split; [|split; [|split]]].
  - intros Hkey.
    destruct family; [| |done]; simpl;
      unfold CustomCohere_init, CustomAnthropic_init;
      rewrite handle_api_key_environ by done;
      (destruct (environ !! _) as [v|]; simpl; [eauto 10|done]).
  - intros key -> Hkey.
    destruct family; [| |done]; simpl;
      unfold CustomCohere_init, CustomAnthropic_init;
      rewrite handle_api_key_explicit by done; simpl; eauto 10.
  - by destruct family.
  - done.
  - intros upstream prompt Hnone. simpl.
    unfold CustomAzureOpenAI_generate, CustomAzureOpenAI_a_generate,
      CustomAzureOpenAI_load_model.
    by rewrite Hnone.
Qed.

Lemma api_key_resolution_witness :
  adapter_new ∅ FCohere "command-r" None
  = Err (ValueError (api_key_message "COHERE_API_KEY")).
Proof.
  destruct (api_key_resolution ∅ FCohere "command-r" None) as [H _].
  - discriminate.
  - apply H. reflexivity.
Defined.

(** The claim C10 taken for every family fails on the Azure OpenAI adapter:
    with no variable set at all, its construction succeeds, and the lookup
    of the endpoint fails only at the first call. *)
Lemma azure_construction_reads_no_variable :
  (∅ : gmap string string) !! credential_variable FAzureOpenAI = None
  /\ adapter_new ∅ FAzureOpenAI "gpt-4" None
     = Ok (AzureOpenAI {| azure_model := "gpt-4" |})
  /\ generate silent_upstream ∅ (AzureOpenAI {| azure_model := "gpt-4" |})
       "prompt"
     = Err (KeyError "AZURE_OPENAI_ENDPOINT").
Proof. split; [|split]; reflexivity. Qed.

(** ** Responses that test false *)




(** ** The accumulators of the polling loop *)

Lemma extend_accum_cons (acc : JudgeAccum) (r : EACResult) (rs : list EACResult) :
  extend_accum (extend_accum acc [r]) rs = extend_accum acc (r :: rs).
Proof.
  unfold extend_accum. simpl. rewrite !app_nil_r. by rewrite <- !app_assoc.
Qed.

Lemma extend_accum_nil (acc : JudgeAccum) : extend_accum acc [] = acc.
Proof. destruct acc. unfold extend_accum. simpl. by rewrite !app_nil_r. Qed.

Lemma record_batch_Ok (rd rd' : gmap string JudgeAccum) (name : string)
    (r : EACResult) :
  record_batch rd name r = Ok rd' ->
  exists acc, rd !! name = Some acc
    /\ rd' = <[name := extend_accum acc [r]]> rd.
Proof.
  unfold record_batch. destruct (rd !! name) as [acc|]; [|discriminate].
  intros [= <-]. exists acc. split; [done|].
  unfold extend_accum. simpl. by rewrite !app_nil_r.
Qed.

Section PollingFacts.

Variable method : eac_method.
Variable self : PollingEvaluation.
Variable show : bool.

Lemma judges_loop_Ok (batch : list LLMTestCase) (models : list Model)
    (rd rd' : gmap string JudgeAccum) :
  NoDup (map model_name models) ->
  judges_loop method batch show models rd = Ok rd' ->
  (forall model, model ∈ models ->
     exists acc r,
       rd !! model_name model = Some acc
       /\ method batch model (ThBool show) false = Ok (ResultsDict r)
       /\ rd' !! model_name model = Some (extend_accum acc [r]))
  /\ (forall name, name ∉ map model_name models -> rd' !! name = rd !! name).
Proof.
  revert rd. induction models as [|m models IH]; intros rd Hnd Hloop.
  - injection Hloop as <-. split; [|done].
    intros model Hin. by apply elem_of_nil in Hin.
  - simpl in Hnd. apply list.NoDup_cons in Hnd as [Hm Hnd].
    simpl in Hloop. apply rbind_Ok in Hloop as (ret & Hcall & Hloop).
    destruct ret as [raw|r]; [discriminate|].
    apply rbind_Ok in Hloop as (rd1 & Hrec & Hloop).
    apply record_batch_Ok in Hrec as (acc & Hacc & ->).
    destruct (IH _ Hnd Hloop) as [IHin IHout].
    split.
    + intros model Hin. apply elem_of_cons in Hin as [->|Hin].
      * exists acc, r. split; [done|]. split; [done|].
        rewrite IHout by done. by rewrite lookup_insert_eq.
      * destruct (IHin model Hin) as (acc' & r' & Hacc' & Hcall' & Hrd').
        assert (model_name m <> model_name model) as Hne.
        { intros Heq. apply Hm. rewrite Heq.
          apply list_elem_of_fmap. eauto. }
        rewrite lookup_insert_ne in Hacc' by done. eauto.
    + intros name Hname. simpl in Hname.
      apply not_elem_of_cons in Hname as [Hne Hname].
      rewrite IHout by done. by rewrite lookup_insert_ne.
Qed.

Lemma batches_loop_Ok (test_cases : list LLMTestCase) (models : list Model)
    (indices : list nat) (rd rd' : gmap string JudgeAccum) :
  NoDup (map model_name models) ->
  (forall model, model ∈ models -> is_Some (rd !! model_name model)) ->
  batches_loop method self test_cases show models indices rd = Ok rd' ->
  forall model, model ∈ models ->
    exists acc rs,
      rd !! model_name model = Some acc
      /\ Forall2 (fun i r =>
                    method (batch_at self test_cases i) model (ThBool show)
                      false = Ok (ResultsDict r)) indices rs
      /\ rd' !! model_name model = Some (extend_accum acc rs).
Proof.
  intros Hnd. revert rd.
  induction indices as [|i indices IH]; intros rd Hdom Hloop model Hin.
  - injection Hloop as <-. destruct (Hdom model Hin) as [acc Hacc].
    exists acc, []. split; [done|]. split; [constructor|].
    by rewrite extend_accum_nil.
  - simpl in Hloop. apply rbind_Ok in Hloop as (rd1 & Hjudges & Hloop).
    destruct (judges_loop_Ok _ _ _ _ Hnd Hjudges) as [Hin1 _].
    assert (Hdom1 : forall model, model ∈ models ->
                      is_Some (rd1 !! model_name model)).
    { intros m Hm. destruct (Hin1 m Hm) as (? & ? & _ & _ & ->). eauto. }
    destruct (IH rd1 Hdom1 Hloop model Hin) as (acc1 & rs & Hacc1 & Hrs & Hrd').
    destruct (Hin1 model Hin) as (acc & r & Hacc & Hcall & Hrd1).
    rewrite Hrd1 in Hacc1. injection Hacc1 as <-.
    exists acc, (r :: rs). split; [done|]. split; [by constructor|].
    by rewrite <- extend_accum_cons.
Qed.

End PollingFacts.

Lemma initial_results_dict (names : list string) (name : string) :
  name ∈ names ->
  (list_to_map (map (fun name => (name, empty_accum)) names)
     : gmap string JudgeAccum) !! name = Some empty_accum.
Proof.
  induction names as [|n names IH]; intros Hin.
  - by apply elem_of_nil in Hin.
  - simpl. destruct (decide (n = name)) as [->|Hne].
    + by rewrite lookup_insert_eq.
    + rewrite lookup_insert_ne by done.
      apply elem_of_cons in Hin as [->|Hin]; [done|]. by apply IH.
Qed.

Lemma check_test_case_types_length (test_cases : list TestCaseInput)
    (tcs : list LLMTestCase) :
  _check_test_case_types test_cases = Ok tcs ->
  length tcs = length test_cases.
Proof.
  unfold _check_test_case_types.
  destruct (forallb is_test_case test_cases) eqn:Hall.
  - intros [= <-]. apply forallb_is_test_case in Hall.
    rewrite Hall at 2. by rewrite length_map.
  - destruct test_cases as [|[tc|d|v] l]; try discriminate.
    destruct (rmap build_test_case (InDict d :: l)) as [tcs'|e] eqn:Hmap;
      [|discriminate].
    intros [= <-]. by apply rmap_length in Hmap.
Qed.

(** The anatomy of a completed run: the normalised test cases, the number
    of batches, the final accumulators and the rows of the score matrix. *)
Lemma polling_evaluation_with_Ok (method : eac_method) (self : PollingEvaluation)
    (test_cases : list TestCaseInput) (models : list Model) (show : bool)
    (res : EvaluationResults) :
  polling_evaluation_with method self test_cases models show = Ok res ->
  exists tcs nb rows model_scores,
    _check_test_case_types test_cases = Ok tcs
    /\ num_batches self tcs = Ok nb
    /\ batches_loop method self tcs show models (py_range nb)
         (list_to_map (map (fun name => (name, empty_accum))
                           (map model_name models)))
       = Ok (responses res)
    /\ Forall2 (fun name row => scores_of (responses res) name = Ok row)
         (map model_name models) rows
    /\ np_array rows = Ok model_scores
    /\ mean_scores res = np_mean_axis0 model_scores
    /\ evaluation_score res
       = py_round (np_mean_reduced (mean_scores res)) 3.
Proof.
  unfold polling_evaluation_with. intros H.
  apply rbind_Ok in H as (tcs & Hcheck & H).
  apply rbind_Ok in H as (nb & Hnb & H).
  apply rbind_Ok in H as (rd & Hloop & H).
  apply rbind_Ok in H as (rows & Hrows & H).
  apply rbind_Ok in H as (arr & Harr & H).
  injection H as <-. simpl.
  exists tcs, nb, rows, arr. apply rmap_Forall2 in Hrows. done.
Qed.

(** In a completed run with distinct judge names, every judge's
    accumulator is the record, batch after batch, of what the method
    returned for that judge. *)
Lemma polling_accumulators (method : eac_method) (self : PollingEvaluation)
    (test_cases : list TestCaseInput) (models : list Model) (show : bool)
    (res : EvaluationResults) :
  (0 < batch_size self)%Z ->
  NoDup (map model_name models) ->
  polling_evaluation_with method self test_cases models show = Ok res ->
  exists tcs bs,
    _check_test_case_types test_cases = Ok tcs
    /\ batches self tcs = Ok bs
    /\ concat bs = tcs
    /\ forall model, model ∈ models ->
         exists rs,
           Forall2 (fun batch r =>
                      method batch model (ThBool show) false
                      = Ok (ResultsDict r)) bs rs
           /\ responses res !! model_name model
              = Some (extend_accum empty_accum rs).
Proof.
  intros Hb Hnd Hrun.
  apply polling_evaluation_with_Ok in Hrun
    as (tcs & nb & rows & arr & Hcheck & Hnb & Hloop & _).
  destruct (batches_Ok self tcs Hb) as (nb' & Hnb' & Hbounds & Hbs).
  rewrite Hnb in Hnb'. injection Hnb' as <-.
  exists tcs, (map (batch_at self tcs) (py_range nb)).
  split; [done|]. split; [done|]. split; [apply concat_batches; lia|].
  intros model Hin.
  assert (Hdom : forall m, m ∈ models ->
            is_Some ((list_to_map (map (fun name => (name, empty_accum))
                                       (map model_name models))
                       : gmap string JudgeAccum) !! model_name m)).
  { intros m Hm. rewrite initial_results_dict; [eauto|].
    apply list_elem_of_fmap. eauto. }
  destruct (batches_loop_Ok _ _ _ _ _ _ _ _ Hnd Hdom Hloop model Hin)
    as (acc & rs & Hacc & Hrs & Hres).
  rewrite initial_results_dict in Hacc by (apply list_elem_of_fmap; eauto).
  injection Hacc as <-.
  exists rs. split; [|done]. by apply Forall2_fmap_l.
Qed.





(** ** Aggregation *)




(** ** Rounding *)













(** ** The scripted method *)




Lemma sample_models_NoDup : NoDup (map model_name sample_models).
Proof.
  simpl. apply NoDup_cons_2; [|apply NoDup_singleton].
  intros Hin. apply list_elem_of_singleton in Hin. discriminate.
Qed.





(** The three batches of the scenario have sizes 3, 3 and 1. *)
Lemma sample_batch_sizes :
  (do bs <- batches sample_engine sample_cases; Ok (map length bs))
  = Ok [3; 3; 1].
Proof. reflexivity. Qed.

(** ** The overall score *)



(** The scenario displays 0.45. *)
Lemma sample_evaluation_score :
  evaluation_score (result_of sample_run) = Num (Q2Qc (45 # 100)).
Proof. vm_compute. f_equal. apply Qc_is_canon. reflexivity. Qed.


(** ** Costs *)

Lemma cost_truthy_false (q : Qc) :
  cost_truthy (Some q) = false -> q = Q2Qc 0.
Proof.
  unfold cost_truthy. intros H. apply negb_false_iff in H.
  by apply Qc_eq_bool_correct.
Qed.

Lemma truthy_costs_cons (resp : EvalResponse) (l : list EvalResponse) :
  truthy_costs (resp :: l)
  = match cost resp with
    | Some q => if cost_truthy (Some q) then q :: truthy_costs l
                else truthy_costs l
    | None => truthy_costs l
    end.
Proof.
  unfold truthy_costs. simpl. destruct (cost resp) as [q|]; [|done].
  by destruct (cost_truthy (Some q)).
Qed.

Lemma Qc_sum_truthy_costs (l : list EvalResponse) :
  Qc_sum (truthy_costs l) = Qc_sum (map reported_cost l).
Proof.
  induction l as [|resp l IH]; [done|].
  rewrite truthy_costs_cons. simpl. unfold reported_cost at 1.
  destruct (cost resp) as [q|].
  - destruct (cost_truthy (Some q)) eqn:Ht; simpl.
    + by rewrite IH.
    + apply cost_truthy_false in Ht as ->. rewrite IH.
      symmetry. apply Qcplus_0_l.
  - rewrite IH. symmetry. apply Qcplus_0_l.
Qed.

Lemma any_truthy_costs (l : list EvalResponse) :
  existsb (fun q => cost_truthy (Some q)) (truthy_costs l) = true
  <-> Exists (fun resp => cost_truthy (cost resp) = true) l.
Proof.
  induction l as [|resp l IH].
  - simpl. split; [done|]. intros H. inversion H.
  - rewrite truthy_costs_cons.
    destruct (cost resp) as [q|] eqn:Hq.
    + destruct (cost_truthy (Some q)) eqn:Ht; simpl.
      * rewrite Ht. simpl. split; [|done]. intros _.
        apply Exists_cons_hd. by rewrite Hq.
      * rewrite IH. split.
        -- intros H. by apply Exists_cons_tl.
        -- intros H. inversion H as [? ? Hhd|? ? Htl]; subst; [|done].
           rewrite Hq in Hhd. congruence.
    + rewrite IH. split.
      * intros H. by apply Exists_cons_tl.
      * intros H. inversion H as [? ? Hhd|? ? Htl]; subst; [|done].
        by rewrite Hq in Hhd.
Qed.

(** The cost that the body of [evaluate_answer_correctness] returns for
    the responses of one batch. *)
Lemma total_cost_cases (l : list EvalResponse) :
  (Exists (fun resp => cost_truthy (cost resp) = true) l ->
     total_cost (truthy_costs l) = CostNum (Qc_sum (map reported_cost l)))
  /\ (Forall (fun resp => cost_truthy (cost resp) = false) l ->
        total_cost (truthy_costs l) = CostNA).
Proof.
  unfold total_cost. split.
  - intros H. apply any_truthy_costs in H. rewrite H.
    by rewrite Qc_sum_truthy_costs.
  - intros H.
    destruct (existsb _ (truthy_costs l)) eqn:Hany; [|done].
    apply any_truthy_costs in Hany. apply Exists_exists in Hany
      as (resp & Hin & Ht).
    rewrite list.Forall_forall in H. apply list_elem_of_In in Hin.
    specialize (H resp Hin). congruence.
Qed.

Lemma eac_finish_Ok (name : string) (responses : EvaluationResult)
    (r : EACResult) :
  eac_finish name false responses = Ok (ResultsDict r) ->
  eac_model r = name
  /\ eac_scores r = map score (eac_results r)
  /\ eac_cost r = total_cost (truthy_costs (eac_results r)).
Proof.
  unfold eac_finish. intros H.
  apply rbind_Ok in H as (ers & _ & H). by injection H as <-.
Qed.

(** C5, as the code has it.  In a completed run over judges with distinct
    names, a judge's entry holds [cost_per_batch]: one cost per batch, in
    batch order, each the cost that the single-judge evaluation of that
    batch returned; no total over the batches is formed.  The cost that
    [evaluate_answer_correctness] returns for a batch is the sum of the
    costs its cases report when at least one case reports a cost other
    than zero, and the string "N/A" when none does. *)
Theorem costs_recorded_per_batch (method : eac_method)
    (self : PollingEvaluation) (test_cases : list TestCaseInput)
    (models : list Model) (show : bool) (res : EvaluationResults) :
  (1 < batch_size self)%Z ->
  NoDup (map model_name models) ->
  polling_evaluation_with method self test_cases models show = Ok res ->
  (exists tcs bs,
     _check_test_case_types test_cases = Ok tcs
     /\ batches self tcs = Ok bs
     /\ forall model, model ∈ models ->
          exists acc,
            responses res !! model_name model = Some acc
            /\ Forall2 (fun batch c =>
                          exists r,
                            method batch model (ThBool show) false
                            = Ok (ResultsDict r)
                            /\ eac_cost r = c) bs (cost_per_batch acc)
            /\ dom (accum_dict acc)
               = ({[ "results"; "scores"; "cost_per_batch" ]} : gset string)
            /\ accum_dict acc !! "cost_per_batch"
               = Some (PyCosts (cost_per_batch acc)))
  /\ (forall name responses r,
        eac_finish name false responses = Ok (ResultsDict r) ->
        (Exists (fun resp => cost_truthy (cost resp) = true) (eac_results r) ->
           eac_cost r = CostNum (Qc_sum (map reported_cost (eac_results r))))
        /\ (Forall (fun resp => cost_truthy (cost resp) = false)
                   (eac_results r) ->
              eac_cost r = CostNA)).
Proof.
  intros Hb Hnd Hrun. split.
  - destruct (polling_accumulators method self test_cases models show res)
      as (tcs & bs & Hcheck & Hbs & _ & Hacc); [lia|done|done|].
    exists tcs, bs. split; [done|]. split; [done|].
    intros model Hin. destruct (Hacc model Hin) as (rs & Hrs & Hres).
    exists (extend_accum empty_accum rs). split; [done|]. split; [|split].
    + simpl. apply Forall2_fmap_r.
      eapply list.Forall2_impl; [exact Hrs|]. simpl. eauto.
    + unfold accum_dict. rewrite !dom_insert_L, dom_empty_L. set_solver.
    + unfold accum_dict.
      rewrite lookup_insert_ne, lookup_insert_ne by discriminate.
      by rewrite lookup_insert_eq.
  - intros name responses r Hr. apply eac_finish_Ok in Hr as (_ & _ & ->).
    apply total_cost_cases.
Qed.

Lemma costs_recorded_per_batch_witness :
  exists acc,
    responses (result_of sample_run) !! "judge-a" = Some acc
    /\ length (cost_per_batch acc) = 3.
Proof.
  destruct (costs_recorded_per_batch (scripted_method sample_verdict)
              sample_engine (map InTestCase sample_cases) sample_models false
              (result_of sample_run))
    as [(tcs & bs & Hcheck & Hbs & Hacc) _].
  - simpl. lia.
  - exact sample_models_NoDup.
  - vm_compute. reflexivity.
  - destruct (Hacc (Named "judge-a")) as (acc & Hres & Hcosts & _).
    + apply list_elem_of_here.
    + exists acc. split; [exact Hres|].
      apply Forall2_length in Hcosts. rewrite <- Hcosts.
      vm_compute in Hcheck. injection Hcheck as <-.
      vm_compute in Hbs. injection Hbs as <-. reflexivity.
Defined.

(** The claim C5 fails: the judge of the scenario reports a cost for every
    case, its three batches cost 0.75, 0.75 and 0.25, and its entry holds
    these three costs under [cost_per_batch]; no key of the entry holds
    their sum 1.75, or any single cost. *)
Lemma no_total_cost_in_result :
  exists acc,
    responses (result_of sample_run) !! "judge-a" = Some acc
    /\ sample_run = Ok (result_of sample_run)
    /\ cost_per_batch acc
       = [ CostNum (Q2Qc (3 # 4)); CostNum (Q2Qc (3 # 4));
           CostNum (Q2Qc (1 # 4)) ]
    /\ forall key c, accum_dict acc !! key <> Some (PyCost c).
Proof.
  destruct (responses (result_of sample_run) !! "judge-a") as [acc|] eqn:Hacc;
    [|vm_compute in Hacc; discriminate].
  exists acc. split; [done|]. split; [vm_compute; reflexivity|]. split.
  - vm_compute in Hacc. injection Hacc as <-. simpl.
    repeat (f_equal; try (apply Qc_is_canon; reflexivity)).
  - intros key c. unfold accum_dict.
    destruct (decide (key = "results")) as [->|?];
      [by rewrite lookup_insert_eq | rewrite lookup_insert_ne by done].
    destruct (decide (key = "scores")) as [->|?];
      [by rewrite lookup_insert_eq | rewrite lookup_insert_ne by done].
    destruct (decide (key = "cost_per_batch")) as [->|?];
      [by rewrite lookup_insert_eq | rewrite lookup_insert_ne by done].
    by rewrite lookup_empty.
Qed.

(** ** The metric constructor call *)

(** Called with the keyword of its signature, the constructor builds the
    metric and stores the threshold it is given; without a threshold it
    stores 0.8. *)
Lemma AnswerCorrectnessMetric_new_documented (model : Model) (th : Threshold) :
  (exists m, AnswerCorrectnessMetric_new
               [ ("evaluation_model", ArgModel model);
                 ("threshold", ArgThreshold th) ] = Ok m
             /\ geval_model m = ArgModel model
             /\ geval_threshold m = ArgThreshold th)
  /\ (exists m, AnswerCorrectnessMetric_new
                  [ ("evaluation_model", ArgModel model) ] = Ok m
                /\ geval_threshold m = ArgThreshold default_threshold).
Proof. split; eexists; (split; [reflexivity|]); simpl; auto. Qed.

(** The call in [evaluate_answer_correctness] names the first argument
    [model], which the signature does not have: it raises. *)
Lemma AnswerCorrectnessMetric_new_model_keyword (model : Model) (th : Threshold) :
  AnswerCorrectnessMetric_new
    [ ("model", ArgModel model); ("threshold", ArgThreshold th) ]
  = Err unexpected_model_keyword.
Proof. reflexivity. Qed.

Lemma evaluate_answer_correctness_raises
    (evaluate : list LLMTestCase -> list GEval -> result EvaluationResult)
    (self : PollingEvaluation) (test_cases : list LLMTestCase) (model : Model)
    (threshhold : Threshold) (return_raw : bool) :
  evaluate_answer_correctness evaluate self test_cases model threshhold
    return_raw
  = Err unexpected_model_keyword.
Proof. reflexivity. Qed.

(** The loop hands the method the flag as [threshhold] and [False] as
    [return_raw], and nothing else: two methods that agree on such calls
    give the same run. *)
Lemma polling_passes_flag_as_threshold (m1 m2 : eac_method)
    (self : PollingEvaluation) (test_cases : list TestCaseInput)
    (models : list Model) (show : bool) :
  (forall batch model,
     m1 batch model (ThBool show) false = m2 batch model (ThBool show) false) ->
  polling_evaluation_with m1 self test_cases models show
  = polling_evaluation_with m2 self test_cases models show.
Proof.
  intros Hagree. unfold polling_evaluation_with.
  assert (Hj : forall batch ms rd,
            judges_loop m1 batch show ms rd = judges_loop m2 batch show ms rd).
  { intros batch ms. induction ms as [|m ms IH]; intros rd; simpl; [done|].
    rewrite Hagree. destruct (m2 batch m (ThBool show) false) as [[|r]|]; simpl;
      try done.
    destruct (record_batch rd (model_name m) r); simpl; [apply IH|done]. }
  assert (Hb : forall tcs ms idx rd,
            batches_loop m1 self tcs show ms idx rd
            = batches_loop m2 self tcs show ms idx rd).
  { intros tcs ms idx. induction idx as [|i idx IH]; intros rd; simpl; [done|].
    rewrite Hj. destruct (judges_loop m2 _ show ms rd); simpl; [apply IH|done]. }
  destruct (_check_test_case_types test_cases) as [tcs|]; simpl; [|done].
  destruct (num_batches self tcs) as [nb|]; simpl; [|done].
  by rewrite Hb.
Qed.

Lemma polling_evaluation_first_call_raises
    (evaluate : list LLMTestCase -> list GEval -> result EvaluationResult)
    (self : PollingEvaluation) (test_cases : list TestCaseInput)
    (models : list Model) (show : bool) (tcs : list LLMTestCase) :
  (0 < batch_size self)%Z ->
  _check_test_case_types test_cases = Ok tcs ->
  tcs <> [] ->
  models <> [] ->
  polling_evaluation evaluate self test_cases models show
  = Err unexpected_model_keyword.
Proof.
  intros Hb Hcheck Htcs Hmodels.
  unfold polling_evaluation, polling_evaluation_with. rewrite Hcheck. simpl.
  destruct (batches_Ok self tcs) as (nb & Hnb & Hbounds & _); [lia|].
  rewrite Hnb. simpl.
  assert (0 < nb)%Z as Hpos.
  { destruct tcs; [done|]. simpl in Hbounds. nia. }
  unfold py_range.
  destruct (Z.to_nat nb) as [|k] eqn:Hk; [lia|].
  destruct models as [|model models]; [done|]. reflexivity.
Qed.

(** With the method of the class, a run over at least one judge completes
    only when there is no test case; it then returns an empty vector of
    means and [nan] as overall score. *)
Lemma polling_evaluation_completes_only_empty
    (evaluate : list LLMTestCase -> list GEval -> result EvaluationResult)
    (self : PollingEvaluation) (test_cases : list TestCaseInput)
    (models : list Model) (show : bool) (res : EvaluationResults) :
  (0 < batch_size self)%Z ->
  models <> [] ->
  polling_evaluation evaluate self test_cases models show = Ok res ->
  test_cases = []
  /\ (forall model, model ∈ models ->
        responses res !! model_name model = Some empty_accum)
  /\ mean_scores res = Vector []
  /\ evaluation_score res = NaN.
Proof.
  intros Hb Hmodels Hrun.
  destruct (_check_test_case_types test_cases) as [tcs|e] eqn:Hcheck.
  2: { unfold polling_evaluation, polling_evaluation_with in Hrun.
       by rewrite Hcheck in Hrun. }
  destruct tcs as [|tc tcs].
  2: { rewrite (polling_evaluation_first_call_raises evaluate self test_cases
                  models show (tc :: tcs)) in Hrun by done. discriminate. }
  apply check_test_case_types_length in Hcheck.
  destruct test_cases; [|done]. split; [done|].
  unfold polling_evaluation, polling_evaluation_with in Hrun.
  change (_check_test_case_types []) with (Ok (@nil LLMTestCase)) in Hrun.
  simpl in Hrun. unfold num_batches, ceil_div in Hrun.
  destruct (Z.eqb_spec (batch_size self) 0) as [?|_]; [lia|].
  simpl in Hrun.
  assert (Hrows : forall names,
            rmap (scores_of (list_to_map
                               (map (fun name => (name, empty_accum)) names)))
                 names
            = Ok (map (fun _ => []) names)).
  { intros names.
    assert (Hgen : forall l, (forall n, n ∈ l -> n ∈ names) ->
              rmap (scores_of (list_to_map
                                 (map (fun name => (name, empty_accum)) names)))
                   l
              = Ok (map (fun _ => []) l)).
    { induction l as [|n l IH]; intros Hsub; simpl; [done|].
      unfold scores_of at 1.
      rewrite initial_results_dict by (apply Hsub; left).
      simpl. rewrite IH; [done|]. intros n' Hn'. apply Hsub. by right. }
    by apply Hgen. }
  rewrite Hrows in Hrun. simpl in Hrun.
  destruct (map model_name models) as [|n names] eqn:Hnames.
  { by destruct models. }
  simpl in Hrun.
  assert (Hall : forallb (fun r' : list Qc => Nat.eqb (length r') 0)
                   (map (fun _ => []) names) = true).
  { clear. induction names; simpl; auto. }
  rewrite Hall in Hrun. simpl in Hrun. injection Hrun as <-. simpl.
  split; [|done]. intros model Hin.
  change (<[n:=empty_accum]> _)
    with (list_to_map (map (fun name => (name, empty_accum)) (n :: names))
            : gmap string JudgeAccum).
  rewrite <- Hnames.
  apply initial_results_dict, list_elem_of_fmap. eauto.
Qed.

(** C6, on the code.  The flag travels as [threshhold] into the keyword
    call of the metric class, and that call raises: whenever there is at
    least one test case and at least one judge, [polling_evaluation] ends
    with the [TypeError] of the constructor call at the first batch and
    the first judge.  No metric is built and nothing is evaluated,
    whatever the flag. *)
Theorem metric_construction_raises
    (evaluate : list LLMTestCase -> list GEval -> result EvaluationResult)
    (self : PollingEvaluation) (test_cases : list TestCaseInput)
    (models : list Model) (show : bool) (tcs : list LLMTestCase) :
  (1 < batch_size self)%Z ->
  _check_test_case_types test_cases = Ok tcs ->
  tcs <> [] ->
  models <> [] ->
  (forall batch model,
     AnswerCorrectnessMetric_new
       [ ("model", ArgModel model); ("threshold", ArgThreshold (ThBool show)) ]
     = Err unexpected_model_keyword
     /\ evaluate_answer_correctness evaluate self batch model (ThBool show)
          false
        = Err unexpected_model_keyword)
  /\ polling_evaluation evaluate self test_cases models show
     = Err unexpected_model_keyword.
Proof.
  intros Hb Hcheck Htcs Hmodels. split; [done|].
  apply (polling_evaluation_first_call_raises evaluate self test_cases models
           show tcs); [lia|done..].
Qed.

Lemma metric_construction_raises_witness :
  polling_evaluation (fun _ _ => Ok {| test_results := [] |})
    {| batch_size := 2 |} [ InTestCase (sample_case "a") ] [ Named "gpt-4" ]
    false
  = Err unexpected_model_keyword.
Proof.
  destruct (metric_construction_raises
              (fun _ _ => Ok {| test_results := [] |})
              {| batch_size := 2 |} [ InTestCase (sample_case "a") ]
              [ Named "gpt-4" ] false [ sample_case "a" ]) as [_ H].
  - simpl. lia.
  - reflexivity.
  - discriminate.
  - discriminate.
  - exact H.
Defined.

(** ** Construction of the engine *)

Lemma check_test_case_types_Err (test_cases : list TestCaseInput) (e : PyError) :
  _check_test_case_types test_cases = Err e ->
  e = ValueError test_case_message.
Proof.
  unfold _check_test_case_types.
  destruct (forallb is_test_case test_cases); [discriminate|].
  destruct test_cases as [|[tc|d|v] l]; try by intros [= <-].
  destruct (rmap build_test_case (InDict d :: l)); [discriminate|].
  by intros [= <-].
Qed.

Lemma batches_loop_shipped
    (evaluate : list LLMTestCase -> list GEval -> result EvaluationResult)
    (self : PollingEvaluation) (test_cases : list LLMTestCase) (show : bool)
    (models : list Model) (indices : list nat) (rd : gmap string JudgeAccum) :
  batches_loop (evaluate_answer_correctness evaluate self) self test_cases show
    models indices rd
  = match indices, models with
    | _ :: _, _ :: _ => Err unexpected_model_keyword
    | _, _ => Ok rd
    end.
Proof.
  induction indices as [|i indices IH]; [done|].
  destruct models as [|model models]; [|done].
  simpl. rewrite IH. by destruct indices.
Qed.

Lemma rmap_scores_of_Err (rd : gmap string JudgeAccum) (names : list string)
    (e : PyError) :
  rmap (scores_of rd) names = Err e -> exists key, e = KeyError key.
Proof.
  induction names as [|name names IH]; simpl; [discriminate|].
  unfold scores_of at 1. destruct (rd !! name) as [acc|]; simpl.
  - destruct (rmap (scores_of rd) names); simpl; [discriminate|].
    intros [= <-]. by apply IH.
  - intros [= <-]. eauto.
Qed.

(** The errors a call of [polling_evaluation] can end with. *)
Lemma polling_evaluation_errors
    (evaluate : list LLMTestCase -> list GEval -> result EvaluationResult)
    (self : PollingEvaluation) (test_cases : list TestCaseInput)
    (models : list Model) (show : bool) (e : PyError) :
  polling_evaluation evaluate self test_cases models show = Err e ->
  e = ValueError test_case_message
  \/ e = ZeroDivisionError
  \/ e = unexpected_model_keyword
  \/ (exists key, e = KeyError key)
  \/ e = ValueError "setting an array element with a sequence".
Proof.
  unfold polling_evaluation, polling_evaluation_with.
  destruct (_check_test_case_types test_cases) as [tcs|e0] eqn:Hcheck; simpl.
  2: { intros [= <-]. left. by apply check_test_case_types_Err in Hcheck. }
  unfold num_batches, ceil_div.
  destruct (batch_size self =? 0)%Z; simpl; [intros [= <-]; auto|].
  rewrite batches_loop_shipped.
  set (rd := list_to_map _).
  destruct (py_range _) as [|i idx], models as [|model models]; simpl;
    try (intros [= <-]; auto).
  - destruct (scores_of rd (model_name model)) as [row|e1] eqn:Hrow; simpl.
    + destruct (rmap (scores_of rd) (map model_name models)) as [rows|e2]
        eqn:Hrows; simpl.
      * destruct (forallb _ rows); simpl; [discriminate|].
        intros [= <-]. auto 10.
      * intros [= <-]. apply rmap_scores_of_Err in Hrows. auto 10.
    + intros [= <-]. unfold scores_of in Hrow.
      destruct (rd !! model_name model); [discriminate|].
      injection Hrow as <-. eauto 10.
Qed.

(** C8. A batch size of at most 1 is refused by the constructor with the
    [ValueError] of the batch size; a batch size above 1 yields an engine
    holding it.  Every engine the constructor returns therefore has a
    batch size above 1, and no call of [polling_evaluation] ends with the
    error of the batch size. *)
Theorem batch_size_checked_at_construction (b : Z) :
  ((b <= 1)%Z ->
     PollingEvaluation_init b = Err (ValueError batch_size_message))
  /\ ((1 < b)%Z -> PollingEvaluation_init b = Ok {| batch_size := b |})
  /\ (forall self, PollingEvaluation_init b = Ok self ->
        (1 < batch_size self)%Z)
  /\ (forall evaluate self test_cases models show,
        polling_evaluation evaluate self test_cases models show
        <> Err (ValueError batch_size_message)).
Proof.
  split; [|split; [|split]].
  - intros Hle. unfold PollingEvaluation_init.
    destruct (Z.leb_spec b 1); [done|lia].
  - intros Hlt. unfold PollingEvaluation_init.
    destruct (Z.leb_spec b 1); [lia|done].
  - intros self. unfold PollingEvaluation_init.
    destruct (Z.leb_spec b 1); [discriminate|]. by intros [= <-].
  - intros evaluate self test_cases models show Herr.
    apply polling_evaluation_errors in Herr
      as [H|[H|[H|[[key H]|H]]]]; discriminate.
Qed.

Lemma batch_size_checked_at_construction_witness :
  PollingEvaluation_init 1 = Err (ValueError batch_size_message)
  /\ PollingEvaluation_init (-3) = Err (ValueError batch_size_message)
  /\ PollingEvaluation_init 10 = Ok {| batch_size := 10 |}.
Proof.
  split; [|split].
  - apply (batch_size_checked_at_construction 1). lia.
  - apply (batch_size_checked_at_construction (-3)). lia.
  - apply (batch_size_checked_at_construction 10). lia.
Defined.

(** * Further properties of the code *)

(** ** Sequencing over lists *)

Lemma rmap_ext_in {A B} (f g : A -> result B) (l : list A) :
  (forall x, x ∈ l -> f x = g x) -> rmap f l = rmap g l.
Proof.
  induction l as [|a l IH]; intros H; simpl; [done|].
  rewrite (H a) by left. rewrite IH; [done|].
  intros x Hx. apply H. by right.
Qed.

Lemma rmap_Err {A B} (f : A -> result B) (l : list A) (e : PyError) :
  rmap f l = Err e -> exists x, x ∈ l /\ f x = Err e.
Proof.
  induction l as [|a l IH]; simpl; [discriminate|].
  destruct (f a) as [b|e'] eqn:Hfa; simpl.
  - destruct (rmap f l) as [bs|e'']; simpl; [discriminate|].
    intros [= <-]. destruct IH as (x & Hx & Hfx); [done|].
    exists x. split; [by right|done].
  - intros [= <-]. exists a. split; [left|done].
Qed.

Lemma rmap_first_error {A B} (f : A -> result B) (pre post : list A) (x : A)
    (e : PyError) :
  Forall (fun a => exists b, f a = Ok b) pre ->
  f x = Err e ->
  rmap f (pre ++ x :: post) = Err e.
Proof.
  induction 1 as [|a pre [b Hb] _ IH]; intros Hx; simpl.
  - by rewrite Hx.
  - rewrite Hb. simpl. by rewrite IH.
Qed.

Lemma rmap_fmap {A B C} (f : B -> result C) (g : A -> B) (l : list A) :
  rmap f (map g l) = rmap (fun a => f (g a)) l.
Proof. induction l as [|a l IH]; simpl; [done|]. by rewrite IH. Qed.

(** An indexed loop that reads [queries[i]] beside its [i]-th element
    is the loop over the pairs of the two lists. *)
Lemma rmap_enumerate_index {A B} (g : string -> A -> result B)
    (pre qs : list string) (l : list A) :
  length l = length qs ->
  rmap (fun '(i, x) => do q <- py_index (pre ++ qs) i; g q x)
       (zip (seq (length pre) (length l)) l)
  = rmap (fun '(q, x) => g q x) (zip qs l).
Proof.
  revert pre qs. induction l as [|x l IH]; intros pre qs Hlen.
  - by destruct qs.
  - destruct qs as [|q qs]; [done|]. simpl in Hlen. simpl.
    unfold py_index at 1. rewrite list_lookup_middle by done. simpl.
    specialize (IH (pre ++ [q])%list qs ltac:(lia)).
    rewrite <- app_assoc in IH. simpl in IH.
    rewrite length_app in IH. simpl in IH.
    replace (length pre + 1) with (S (length pre)) in IH by lia.
    by rewrite IH.
Qed.

Lemma rmap_enumerate {A B} (g : string -> A -> result B)
    (queries : list string) (l : list A) :
  length l = length queries ->
  rmap (fun '(i, x) => do q <- py_index queries i; g q x) (enumerate l)
  = rmap (fun '(q, x) => g q x) (zip queries l).
Proof.
  intros Hlen. apply (rmap_enumerate_index g [] queries l Hlen).
Qed.

Lemma rmap_zip_Forall3 {A B C} (g : A -> B -> result C) (qs : list A)
    (l : list B) (out : list C) :
  length l = length qs ->
  rmap (fun '(q, x) => g q x) (zip qs l) = Ok out
  <-> Forall3 (fun q x y => g q x = Ok y) qs l out.
Proof.
  revert l out. induction qs as [|q qs IH]; intros l out Hlen.
  - destruct l; [|done]. simpl. split.
    + intros [= <-]. constructor.
    + intros H. by inversion H.
  - destruct l as [|x l]; [done|]. simpl in Hlen. simpl. split.
    + intros H. apply rbind_Ok in H as (y & Hy & H).
      apply rbind_Ok in H as (ys & Hys & H). injection H as <-.
      constructor; [done|]. apply IH; [lia|done].
    + intros H. inversion H as [|? ? y ? ? ys Hy Hys]; subst.
      rewrite Hy. simpl. apply IH in Hys; [|lia]. by rewrite Hys.
Qed.

Lemma rmap_two_stages {A B C} (f : A -> result B) (g : A -> B -> result C)
    (l : list A) (out : list C) :
  (do bs <- rmap f l; rmap (fun '(a, b) => g a b) (zip l bs)) = Ok out
  <-> Forall2 (fun a c => exists b, f a = Ok b /\ g a b = Ok c) l out.
Proof.
  split.
  - intros H. apply rbind_Ok in H as (bs & Hbs & H).
    pose proof (rmap_length _ _ _ Hbs) as Hlen.
    apply rmap_Forall2 in Hbs. apply rmap_zip_Forall3 in H; [|done].
    clear Hlen. revert out H.
    induction Hbs as [|a b l bs Hab _ IH]; intros out H.
    + inversion H. constructor.
    + inversion H as [|? ? c ? ? cs Hc Hcs]; subst.
      constructor; [eauto|]. by apply IH.
  - intros H.
    assert (exists bs, Forall2 (fun a b => f a = Ok b) l bs
                       /\ Forall3 (fun a b c => g a b = Ok c) l bs out)
      as (bs & Hbs & Hcs).
    { induction H as [|a c l out (b & Hb & Hc) _ (bs & Hbs & Hcs)].
      - exists []. split; constructor.
      - exists (b :: bs). split; by constructor. }
    assert (length l = length bs) as Hlen
      by (eapply list.Forall2_length; exact Hbs).
    apply rmap_Forall2 in Hbs. rewrite Hbs. simpl.
    apply rmap_zip_Forall3; [done|done].
Qed.

(** ** [gather] *)

Lemma first_raised_Some {A} (finished : list nat) (outcomes : list (result A))
    (e : PyError) :
  first_raised finished outcomes = Some e ->
  exists i, outcomes !! i = Some (Err e).
Proof.
  induction finished as [|i finished IH]; simpl; [discriminate|].
  destruct (outcomes !! i) as [[a|e']|] eqn:Hi; auto.
  intros [= <-]. eauto.
Qed.

Lemma first_raised_None {A} (finished : list nat) (outcomes : list (result A)) :
  Forall (fun o => exists a, o = Ok a) outcomes ->
  first_raised finished outcomes = None.
Proof.
  intros Hall. induction finished as [|i finished IH]; simpl; [done|].
  destruct (outcomes !! i) as [[a|e]|] eqn:Hi; auto.
  rewrite list.Forall_forall in Hall.
  destruct (Hall (Err e)) as [a Ha]; [|discriminate].
  by apply list_elem_of_lookup_2 in Hi.
Qed.

Lemma gather_Ok {A} (finished : list nat) (outcomes : list (result A))
    (values : list A) :
  gather finished outcomes = Ok values
  <-> Forall2 (fun o a => o = Ok a) outcomes values.
Proof.
  unfold gather. split.
  - destruct (first_raised finished outcomes); [discriminate|].
    intros H. by apply rmap_Forall2 in H.
  - intros H. rewrite first_raised_None.
    + by apply rmap_Forall2.
    + clear -H. induction H as [|o a ? ? -> _ IH]; constructor; eauto.
Qed.

Lemma gather_Err {A} (finished : list nat) (outcomes : list (result A))
    (e : PyError) :
  gather finished outcomes = Err e -> Err e ∈ outcomes.
Proof.
  unfold gather.
  destruct (first_raised finished outcomes) as [e'|] eqn:Hfirst.
  - intros [= <-]. apply first_raised_Some in Hfirst as [i Hi].
    by apply list_elem_of_lookup_2 in Hi.
  - intros H. apply rmap_Err in H as (o & Ho & ->). done.
Qed.

(** ** Test-case assembly *)

Section TestCaseGeneratorFacts.

Variable Passages : Type.
Variable hybrid_search : string -> string -> Z -> result Passages.
Variable rerank : Passages -> string -> Z -> result Passages.
Variable achat_completion :
  string -> string -> Qc -> Z -> list (string * PyVal) -> result string.
Variable huberman_system_message : string.
Variable generate_prompt_series : string -> Passages -> result string.
Variable create_context_blocks : Passages -> result (list string).
Variable finished : list nat.

Lemma retrieve_results_unfold (queries : list string) (collection_name : string)
    (limit top_k : Z) :
  retrieve_results Passages hybrid_search rerank queries collection_name limit
    top_k
  = (do results <-
       rmap (fun query => hybrid_search query collection_name limit) queries;
     rmap (fun '(q, r) => rerank r q top_k) (zip queries results)).
Proof.
  unfold retrieve_results.
  destruct (rmap _ queries) as [results|e] eqn:Hres; simpl; [|done].
  apply rmap_length in Hres.
  rewrite (rmap_enumerate (fun q r => rerank r q top_k)) by done.
  by destruct (rmap _ (zip queries results)).
Qed.

Lemma retrieve_results_Ok (queries : list string) (collection_name : string)
    (limit top_k : Z) (reranked : list Passages) :
  retrieve_results Passages hybrid_search rerank queries collection_name limit
    top_k = Ok reranked
  <-> Forall2 (fun query rr =>
                 exists r, hybrid_search query collection_name limit = Ok r
                           /\ rerank r query top_k = Ok rr)
              queries reranked.
Proof.
  rewrite retrieve_results_unfold.
  apply (rmap_two_stages
           (fun query => hybrid_search query collection_name limit)
           (fun q r => rerank r q top_k)).
Qed.

Lemma aget_actual_outputs_Ok (user_messages : list string) (temperature : Qc)
    (max_tokens : Z) (kwargs : list (string * PyVal)) (outs : list string) :
  aget_actual_outputs achat_completion huberman_system_message finished
    user_messages temperature max_tokens kwargs = Ok outs
  <-> Forall2 (fun user_message out =>
                 achat_completion huberman_system_message user_message
                   temperature max_tokens kwargs = Ok out)
              user_messages outs.
Proof.
  unfold aget_actual_outputs.
  destruct (gather finished _) as [values|e] eqn:Hg; simpl.
  - apply gather_Ok in Hg. apply Forall2_fmap_l in Hg.
    split; [by intros [= <-]|]. intros H. f_equal.
    clear -Hg H. revert outs H.
    induction Hg as [|m v ms vs Hv _ IH]; intros outs H.
    + by inversion H.
    + inversion H as [|? o ? os Ho Hos]; subst. simpl in Hv.
      rewrite Hv in Ho. injection Ho as <-. f_equal. by apply IH.
  - split; [discriminate|]. intros H.
    apply gather_Err in Hg. apply list_elem_of_fmap in Hg as (m & Hm & Hin).
    apply list_elem_of_lookup in Hin as [i Hi].
    destruct (Forall2_lookup_l _ _ _ _ _ H Hi) as (o & _ & Ho).
    congruence.
Qed.

Lemma new_test_case_Ok (i o : string) (c : list string) :
  new_test_case (i, o, c)
  = Ok {| tc_input := i; tc_actual_output := o; tc_retrieval_context := c |}.
Proof.
  exact (LLMTestCase_new_to_record
           {| tc_input := i; tc_actual_output := o;
              tc_retrieval_context := c |}).
Qed.

Lemma rmap_new_test_case (l : list (string * string * list string)) :
  rmap new_test_case l
  = Ok (map (fun '(i, o, c) =>
               {| tc_input := i; tc_actual_output := o;
                  tc_retrieval_context := c |}) l).
Proof.
  induction l as [|[[i o] c] l IH]; [done|].
  cbn [rmap map]. rewrite new_test_case_Ok, IH. done.
Qed.

Lemma acreate_test_cases_Ok (queries : list string) (collection_name : string)
    (retrieve_limit top_k : Z) (test_cases : list LLMTestCase) :
  acreate_test_cases Passages hybrid_search rerank achat_completion
    huberman_system_message generate_prompt_series create_context_blocks
    finished queries collection_name retrieve_limit top_k = Ok test_cases
  <-> Forall2 (assembled Passages hybrid_search rerank achat_completion
               huberman_system_message generate_prompt_series
               create_context_blocks collection_name retrieve_limit top_k)
        queries test_cases.
Proof.
  unfold acreate_test_cases. split.
  - intros H. apply rbind_Ok in H as (rrs & Hrrs & H).
    apply rbind_Ok in H as (msgs & Hmsgs & H).
    apply rbind_Ok in H as (outs & Houts & H).
    apply rbind_Ok in H as (ctxs & Hctxs & H).
    apply rbind_Ok in H as (tcs & Htcs & H). injection H as <-.
    rewrite rmap_new_test_case in Htcs. injection Htcs as <-.
    apply retrieve_results_Ok in Hrrs.
    assert (length rrs = length queries) as Hlen
      by (symmetry; eapply list.Forall2_length; exact Hrrs).
    rewrite (rmap_enumerate generate_prompt_series) in Hmsgs by done.
    apply rmap_zip_Forall3 in Hmsgs; [|done].
    apply aget_actual_outputs_Ok in Houts. apply rmap_Forall2 in Hctxs.
    clear Hlen. revert msgs outs ctxs Hmsgs Houts Hctxs.
    induction Hrrs as [|q rr qs rrs (r & Hr & Hrr) _ IH];
      intros msgs outs ctxs Hmsgs Houts Hctxs.
    + constructor.
    + inversion Hmsgs as [|? ? m ? ? ms Hm Hms]; subst.
      inversion Houts as [|? o ? os Ho Hos]; subst.
      inversion Hctxs as [|? c ? cs Hc Hcs]; subst.
      simpl. constructor; [|by apply (IH ms os cs)].
      exists r, rr, m, o, c. done.
  - intros H.
    assert (exists rrs msgs outs ctxs,
              Forall2 (fun query rr =>
                         exists r,
                           hybrid_search query collection_name retrieve_limit
                           = Ok r
                           /\ rerank r query top_k = Ok rr) queries rrs
              /\ Forall3 (fun q rr m => generate_prompt_series q rr = Ok m)
                   queries rrs msgs
              /\ Forall2 (fun m o =>
                            achat_completion huberman_system_message m
                              (Q2Qc 1) 500 [] = Ok o) msgs outs
              /\ Forall2 (fun rr c => create_context_blocks rr = Ok c) rrs ctxs
              /\ test_cases
                 = map (fun '(i, o, c) =>
                          {| tc_input := i; tc_actual_output := o;
                             tc_retrieval_context := c |})
                       (zip3 queries outs ctxs))
      as (rrs & msgs & outs & ctxs & Hrrs & Hmsgs & Houts & Hctxs & ->).
    { induction H as [|q tc qs tcs (r & rr & m & o & c & Hr & Hrr & Hm & Ho
                                    & Hc & ->) _
                       (rrs & msgs & outs & ctxs & Hrrs & Hmsgs & Houts
                        & Hctxs & ->)].
      - exists [], [], [], []. repeat split; constructor.
      - exists (rr :: rrs), (m :: msgs), (o :: outs), (c :: ctxs).
        repeat split; try (constructor; eauto). }
    assert (length rrs = length queries) as Hlen
      by (symmetry; eapply list.Forall2_length; exact Hrrs).
    apply retrieve_results_Ok in Hrrs. rewrite Hrrs. simpl.
    rewrite (rmap_enumerate generate_prompt_series) by done.
    apply rmap_zip_Forall3 in Hmsgs; [|done]. rewrite Hmsgs. simpl.
    apply aget_actual_outputs_Ok in Houts. rewrite Houts. simpl.
    apply rmap_Forall2 in Hctxs. rewrite Hctxs. simpl.
    by rewrite rmap_new_test_case.
Qed.

Lemma Forall2_zip_elem {A B} (P : A -> B -> Prop) (l : list A) (k : list B)
    (a : A) (b : B) :
  Forall2 P l k -> (a, b) ∈ zip l k -> a ∈ l /\ P a b.
Proof.
  induction 1 as [|x y l k Hxy _ IH]; simpl; intros Hin.
  - by apply elem_of_nil in Hin.
  - apply elem_of_cons in Hin as [[= -> ->]|Hin].
    + split; [left|done].
    + destruct (IH Hin). split; [by right|done].
Qed.

(** X1. [retrieve_results] returns one reranked result per query, in the
    order of the queries: the [i]-th is the rerank, against query [i] and
    with [top_k], of the search for query [i] with the given limit.  It
    succeeds as soon as the search and the rerank succeed for every
    query. *)
Theorem retrieve_results_one_per_query (queries : list string)
    (collection_name : string) (limit top_k : Z) :
  (forall reranked,
     retrieve_results Passages hybrid_search rerank queries collection_name
       limit top_k = Ok reranked ->
     length reranked = length queries
     /\ forall i query, queries !! i = Some query ->
          exists r rr,
            hybrid_search query collection_name limit = Ok r
            /\ rerank r query top_k = Ok rr
            /\ reranked !! i = Some rr)
  /\ ((forall query, query ∈ queries ->
         exists r rr, hybrid_search query collection_name limit = Ok r
                      /\ rerank r query top_k = Ok rr) ->
      exists reranked,
        retrieve_results Passages hybrid_search rerank queries collection_name
          limit top_k = Ok reranked).
Proof.
  split.
  - intros reranked H. apply retrieve_results_Ok in H. split.
    + symmetry. eapply list.Forall2_length. exact H.
    + intros i query Hi.
      destruct (Forall2_lookup_l _ _ _ _ _ H Hi) as (rr & Hrr & r & Hr & Hr').
      eauto.
  - intros Hall.
    assert (exists reranked,
              Forall2 (fun query rr =>
                         exists r,
                           hybrid_search query collection_name limit = Ok r
                           /\ rerank r query top_k = Ok rr)
                      queries reranked) as [reranked H].
    { induction queries as [|q qs IH].
      - exists []. constructor.
      - destruct (Hall q) as (r & rr & Hr & Hrr); [left|].
        destruct IH as [rrs Hrrs].
        { intros q' Hq'. apply Hall. by right. }
        exists (rr :: rrs). constructor; eauto. }
    exists reranked. by apply retrieve_results_Ok.
Qed.

(** X2. All searches run before any rerank: when the search of some query
    fails, [retrieve_results] raises the error of the first failing
    search.  Whatever it raises is the error of a search of one of the
    queries, or of the rerank of the search result of one of them; the
    lookup [queries[i]] never fails. *)
Theorem retrieve_results_errors (queries : list string)
    (collection_name : string) (limit top_k : Z) :
  (forall pre query post e,
     queries = (pre ++ query :: post)%list ->
     Forall (fun q => exists r, hybrid_search q collection_name limit = Ok r)
            pre ->
     hybrid_search query collection_name limit = Err e ->
     retrieve_results Passages hybrid_search rerank queries collection_name
       limit top_k = Err e)
  /\ (forall e,
        retrieve_results Passages hybrid_search rerank queries collection_name
          limit top_k = Err e ->
        exists query,
          query ∈ queries
          /\ (hybrid_search query collection_name limit = Err e
              \/ exists r, hybrid_search query collection_name limit = Ok r
                           /\ rerank r query top_k = Err e)).
Proof.
  split.
  - intros pre query post e -> Hpre Hq. rewrite retrieve_results_unfold.
    by rewrite (rmap_first_error _ pre post query e).
  - intros e. rewrite retrieve_results_unfold.
    destruct (rmap _ queries) as [results|e'] eqn:Hres; simpl.
    + intros H. apply rmap_Err in H as ([q r] & Hin & Hqr).
      apply rmap_Forall2 in Hres.
      destruct (Forall2_zip_elem _ _ _ _ _ Hres Hin) as [Hq Hr].
      exists q. split; [done|]. right. eauto.
    + intros [= <-]. apply rmap_Err in Hres as (q & Hq & Hqe).
      exists q. auto.
Qed.

(** X3. [aget_actual_outputs] succeeds exactly when every completion call
    succeeds, and then returns the completions in the order of the
    messages, one per message, whatever the order in which the calls
    finish; each call carries the system message, the temperature, the
    token limit and the extra keywords unchanged.  When it raises, the
    error is the error of one of the calls. *)
Theorem aget_actual_outputs_in_order (user_messages : list string)
    (temperature : Qc) (max_tokens : Z) (kwargs : list (string * PyVal)) :
  (forall outs,
     aget_actual_outputs achat_completion huberman_system_message finished
       user_messages temperature max_tokens kwargs = Ok outs
     <-> Forall2 (fun user_message out =>
                    achat_completion huberman_system_message user_message
                      temperature max_tokens kwargs = Ok out)
                 user_messages outs)
  /\ (forall e,
        aget_actual_outputs achat_completion huberman_system_message finished
          user_messages temperature max_tokens kwargs = Err e ->
        exists user_message,
          user_message ∈ user_messages
          /\ achat_completion huberman_system_message user_message
               temperature max_tokens kwargs = Err e).
Proof.
  split; [intros outs; apply aget_actual_outputs_Ok|].
  intros e. unfold aget_actual_outputs.
  destruct (gather finished _) as [values|e'] eqn:Hg; simpl; [discriminate|].
  intros [= <-]. apply gather_Err in Hg.
  apply list_elem_of_fmap in Hg as (m & Hm & Hin). eauto.
Qed.

(** X4. [acreate_test_cases] succeeds exactly when, for every query, the
    search, the rerank, the prompt, the completion (temperature 1.0, 500
    tokens, no extra keyword) and the context blocks succeed.  It then
    returns one test case per query, in the order of the queries, whose
    input is the query, whose actual output is the completion of the
    query's prompt and whose retrieval context is the context blocks of
    the query's reranked passages: [zip] drops nothing and the test-case
    constructor does not raise. *)
Theorem acreate_test_cases_one_per_query (queries : list string)
    (collection_name : string) (retrieve_limit top_k : Z)
    (test_cases : list LLMTestCase) :
  (acreate_test_cases Passages hybrid_search rerank achat_completion
     huberman_system_message generate_prompt_series create_context_blocks
     finished queries collection_name retrieve_limit top_k = Ok test_cases
   <-> Forall2 (assembled Passages hybrid_search rerank achat_completion
                  huberman_system_message generate_prompt_series
                  create_context_blocks collection_name retrieve_limit top_k)
         queries test_cases)
  /\ (acreate_test_cases Passages hybrid_search rerank achat_completion
        huberman_system_message generate_prompt_series create_context_blocks
        finished queries collection_name retrieve_limit top_k = Ok test_cases ->
      length test_cases = length queries
      /\ map tc_input test_cases = queries
      /\ _check_test_case_types (map InTestCase test_cases) = Ok test_cases).
Proof.
  split; [apply acreate_test_cases_Ok|].
  intros H. apply acreate_test_cases_Ok in H. split; [|split].
  - symmetry. eapply list.Forall2_length. exact H.
  - induction H as [|q tc qs tcs (r & rr & m & o & c & _ & _ & _ & _ & _ & ->)
                     _ IH]; simpl; [done|]. by f_equal.
  - unfold _check_test_case_types.
    rewrite (proj2 (forallb_is_test_case _));
      by rewrite as_test_cases_map.
Qed.

End TestCaseGeneratorFacts.

Lemma retrieve_results_one_per_query_witness :
  exists reranked,
    retrieve_results (list string) sample_search sample_rerank
      [ "sleep"; "light" ] "Huberman" 200 3 = Ok reranked.
Proof.
  apply (retrieve_results_one_per_query (list string) sample_search
           sample_rerank [ "sleep"; "light" ] "Huberman" 200 3).
  intros query Hq.
  apply elem_of_cons in Hq as [->|Hq];
    [|apply list_elem_of_singleton in Hq as ->];
    eexists _, _; split; reflexivity.
Defined.

Lemma retrieve_results_errors_witness :
  retrieve_results (list string) sample_search sample_rerank
    [ "sleep"; ""; "light" ] "Huberman" 200 3
  = Err (UpstreamError "empty query").
Proof.
  destruct (retrieve_results_errors (list string) sample_search sample_rerank
              [ "sleep"; ""; "light" ] "Huberman" 200 3) as [H _].
  apply (H [ "sleep" ] "" [ "light" ]).
  - reflexivity.
  - constructor; [|constructor]. eexists. reflexivity.
  - reflexivity.
Defined.

Lemma aget_actual_outputs_in_order_witness :
  aget_actual_outputs sample_chat "system" [ 1; 0 ] [ "a"; "b" ] (Q2Qc 1) 500 []
  = Ok [ "reply to a"; "reply to b" ].
Proof.
  apply (aget_actual_outputs_in_order sample_chat "system" [ 1; 0 ]
           [ "a"; "b" ] (Q2Qc 1) 500 []).
  repeat constructor.
Defined.

Lemma acreate_test_cases_one_per_query_witness :
  exists test_cases,
    acreate_test_cases (list string) sample_search sample_rerank sample_chat
      "system" sample_prompt sample_blocks [ 1; 0 ] [ "sleep"; "light" ]
      "Huberman" 200 3 = Ok test_cases
    /\ length test_cases = 2
    /\ map tc_input test_cases = [ "sleep"; "light" ].
Proof.
  eexists. split; [vm_compute; reflexivity|].
  destruct (acreate_test_cases_one_per_query (list string) sample_search
              sample_rerank sample_chat "system" sample_prompt sample_blocks
              [ 1; 0 ] [ "sleep"; "light" ] "Huberman" 200 3
              (map (fun q => {| tc_input := q;
                                tc_actual_output := "reply to question: " ++ q;
                                tc_retrieval_context :=
                                  [ q ++ " #1"; q ++ " #2"; q ++ " #3" ] |})
                   [ "sleep"; "light" ])) as [_ H].
  destruct H as (H1 & H2 & _); [vm_compute; reflexivity|].
  split; [exact H1|exact H2].
Defined.

(** ** Loading evaluation responses *)

(** X5. [load_eval_response] succeeds exactly when it is given a single
    metric, or a one-element list of metrics together with a test result.
    A longer list with a test result raises [NotImplementedError], an
    empty one [IndexError]; a list with a plain test case is not unwrapped
    and raises [AttributeError].  A one-element list gives the response of
    its element. *)
Theorem load_eval_response_outcomes (metric : MetricArg) (test_case : CaseArg)
    (return_context_data : bool) :
  ((exists resp,
      load_eval_response metric test_case return_context_data = Ok resp)
   <-> (exists m, metric = OneMetric m)
       \/ (exists m r, metric = MetricList [m] /\ test_case = OfTestResult r))
  /\ (forall l r, metric = MetricList l -> test_case = OfTestResult r ->
        1 < length l ->
        load_eval_response metric test_case return_context_data
        = Err (NotImplementedError multiple_metrics_message))
  /\ (forall r, metric = MetricList [] -> test_case = OfTestResult r ->
        load_eval_response metric test_case return_context_data
        = Err IndexError)
  /\ (forall l tc, metric = MetricList l -> test_case = OfTestCase tc ->
        load_eval_response metric test_case return_context_data
        = Err (AttributeError "score"))
  /\ (forall m r, metric = MetricList [m] -> test_case = OfTestResult r ->
        load_eval_response metric test_case return_context_data
        = load_eval_response (OneMetric m) test_case return_context_data).
Proof.
  split; [|split; [|split; [|split]]].
  - split.
    + intros [resp H]. destruct metric as [m|l]; [eauto|right].
      destruct test_case as [tc|r]; [discriminate|].
      destruct l as [|m [|m' l]]; try discriminate. eauto.
    + intros [[m ->]|(m & r & -> & ->)].
      * destruct test_case; eexists; reflexivity.
      * eexists; reflexivity.
  - intros l r -> -> Hlen. unfold load_eval_response.
    destruct (Nat.ltb_spec 1 (length l)); [done|lia].
  - by intros r -> ->.
  - by intros l tc -> ->.
  - by intros m r -> ->.
Qed.

Lemma load_eval_response_outcomes_witness :
  load_eval_response
    (MetricList [ sample_verdict "judge-a" (sample_case "a");
                  sample_verdict "judge-b" (sample_case "a") ])
    (OfTestResult sample_test_result) true
  = Err (NotImplementedError multiple_metrics_message).
Proof.
  destruct (load_eval_response_outcomes
              (MetricList [ sample_verdict "judge-a" (sample_case "a");
                            sample_verdict "judge-b" (sample_case "a") ])
              (OfTestResult sample_test_result) true) as (_ & H & _).
  apply (H [ sample_verdict "judge-a" (sample_case "a");
             sample_verdict "judge-b" (sample_case "a") ] sample_test_result);
    [reflexivity|reflexivity|simpl; lia].
Defined.

(** X6. The response [load_eval_response] builds from a metric carries the
    score, reason, class name, cost and model of the metric and the input
    and actual output of the case.  Asking for no context data changes the
    retrieval context to [None] and nothing else.  The verdicts of the
    response are never an empty list: an empty list is stored as [None]. *)
Theorem load_eval_response_fields (m : MetricData) (test_case : CaseArg)
    (return_context_data : bool) :
  exists resp,
    load_eval_response (OneMetric m) test_case return_context_data = Ok resp
    /\ score resp = md_score m
    /\ reason resp = md_reason m
    /\ metric resp = md_class_name m
    /\ cost resp = md_evaluation_cost m
    /\ eval_model resp = md_evaluation_model m
    /\ input resp = Some (case_input test_case)
    /\ actual_output resp = Some (case_actual_output test_case)
    /\ retrieval_context resp
       = (if return_context_data
          then Some (case_retrieval_context test_case) else None)
    /\ verdicts resp <> Some []
    /\ (forall v, verdicts resp = Some v -> md_verdicts m = Some v)
    /\ (forall v, md_verdicts m = Some v -> v <> [] -> verdicts resp = Some v)
    /\ (forall resp',
          load_eval_response (OneMetric m) test_case (negb return_context_data)
          = Ok resp' ->
          (score resp', reason resp', metric resp', cost resp',
           eval_model resp', verdicts resp', input resp', actual_output resp')
          = (score resp, reason resp, metric resp, cost resp, eval_model resp,
             verdicts resp, input resp, actual_output resp)).
Proof.
  destruct test_case as [tc|r]; (eexists; split; [reflexivity|]); simpl;
    repeat (split; [done|]);
    (split; [by destruct (md_verdicts m) as [[|v vs]|]|]);
    (split; [intros v; destruct (md_verdicts m) as [[|v' vs]|]; by intros [= <-]|]);
    (split; [intros v ->; by destruct v|]);
    by intros resp' [= <-].
Qed.

(** ** Single-judge evaluation *)

Lemma eac_finish_rmap (l : list TestResult) (ers : list EvalResponse) :
  rmap (fun r => do m <- first_metric r;
                 load_eval_response (OneMetric m) (OfTestResult r) true) l
  = Ok ers
  <-> Forall2 (fun tr resp =>
                 exists m rest,
                   tr_metrics_data tr = m :: rest
                   /\ load_eval_response (OneMetric m) (OfTestResult tr) true
                      = Ok resp) l ers.
Proof.
  rewrite rmap_Forall2. split; intros H.
  - eapply list.Forall2_impl; [exact H|]. intros tr resp Hr.
    unfold first_metric in Hr.
    destruct (tr_metrics_data tr) as [|m rest]; [discriminate|]. eauto.
  - eapply list.Forall2_impl; [exact H|].
    intros tr resp (m & rest & Hm & Hr). unfold first_metric. by rewrite Hm.
Qed.

(** X7. The body of [evaluate_answer_correctness] after the driver call:
    with [return_raw] it hands the driver's responses back untouched;
    otherwise it reads the first metric record of every test result and
    returns, under the judge's name, one response per test result in the
    driver's order and the list of their scores.  It raises only when a
    test result carries no metric record, and then [IndexError]. *)
Theorem eac_finish_results (name : string) (responses : EvaluationResult) :
  eac_finish name true responses = Ok (RawResponses responses)
  /\ (forall r,
        eac_finish name false responses = Ok (ResultsDict r) ->
        eac_model r = name
        /\ length (eac_results r) = length (test_results responses)
        /\ Forall2 (fun tr resp =>
                      exists m rest,
                        tr_metrics_data tr = m :: rest
                        /\ score resp = md_score m
                        /\ cost resp = md_evaluation_cost m
                        /\ input resp = Some (tr_input tr)
                        /\ actual_output resp = Some (tr_actual_output tr)
                        /\ retrieval_context resp
                           = Some (tr_retrieval_context tr))
             (test_results responses) (eac_results r)
        /\ eac_scores r = map score (eac_results r))
  /\ (forall e,
        eac_finish name false responses = Err e <->
        e = IndexError
        /\ exists tr, tr ∈ test_results responses /\ tr_metrics_data tr = []).
Proof.
  split; [done|]. split.
  - intros r H. unfold eac_finish in H.
    apply rbind_Ok in H as (ers & Hers & H). injection H as <-. simpl.
    apply eac_finish_rmap in Hers. split; [done|]. split; [|split; [|done]].
    + symmetry. eapply list.Forall2_length. exact Hers.
    + eapply list.Forall2_impl; [exact Hers|].
      intros tr resp (m & rest & Hm & [= <-]). exists m, rest. done.
  - intros e. unfold eac_finish. split.
    + destruct (rmap _ (test_results responses)) as [ers|e'] eqn:Hers;
        simpl; [discriminate|].
      intros [= <-]. apply rmap_Err in Hers as (tr & Hin & Htr).
      unfold first_metric in Htr.
      destruct (tr_metrics_data tr) as [|m rest] eqn:Hm; [|discriminate].
      injection Htr as <-. eauto.
    + intros [-> (tr & Hin & Hm)].
      apply list_elem_of_lookup in Hin as [i Hi].
      destruct (rmap _ (test_results responses)) as [ers|e'] eqn:Hers; simpl.
      * apply eac_finish_rmap in Hers.
        destruct (Forall2_lookup_l _ _ _ _ _ Hers Hi)
          as (resp & _ & m & rest & Hm' & _).
        congruence.
      * apply rmap_Err in Hers as (tr' & _ & Htr').
        unfold first_metric in Htr'.
        destruct (tr_metrics_data tr'); [|discriminate]. by injection Htr' as <-.
Qed.

Lemma eac_finish_results_witness :
  exists r,
    eac_finish "judge-a" false {| test_results := [ sample_test_result ] |}
    = Ok (ResultsDict r)
    /\ eac_model r = "judge-a"
    /\ length (eac_results r) = 1.
Proof.
  eexists. split; [reflexivity|].
  destruct (eac_finish_results "judge-a"
              {| test_results := [ sample_test_result ] |}) as (_ & H & _).
  destruct (H _ eq_refl) as (H1 & H2 & _). split; [exact H1|exact H2].
Defined.

Lemma Qc_sum_nonneg (l : list Qc) :
  Forall (fun q => (0 <= q)%Qc) l -> (0 <= Qc_sum l)%Qc.
Proof.
  induction 1 as [|q l Hq _ IH]; simpl; [done|].
  by apply Qcplus_nonneg_nonneg.
Qed.

Lemma Qc_sum_pos (l : list Qc) :
  Forall (fun q => (0 <= q)%Qc) l ->
  Exists (fun q => q <> Q2Qc 0) l ->
  (0 < Qc_sum l)%Qc.
Proof.
  induction 1 as [|q l Hq Hl IH]; intros Hex; [by inversion Hex|].
  simpl. inversion Hex as [? ? Hne|? ? Htl]; subst.
  - apply Qcplus_pos_nonneg; [|by apply Qc_sum_nonneg].
    apply Qcle_lt_or_eq in Hq as [Hlt|Heq]; [done|]. by destruct Hne.
  - apply Qcplus_nonneg_pos; [done|by apply IH].
Qed.

Lemma truthy_costs_elem (l : list EvalResponse) (q : Qc) :
  q ∈ truthy_costs l
  <-> exists resp, resp ∈ l /\ cost resp = Some q /\ q <> Q2Qc 0.
Proof.
  unfold truthy_costs. rewrite list_elem_of_omap. split.
  - intros (resp & Hin & H). exists resp. split; [done|].
    destruct (cost resp) as [q'|] eqn:Hc.
    + destruct (cost_truthy (Some q')) eqn:Ht; [|discriminate].
      injection H as ->. split; [done|]. intros ->. by vm_compute in Ht.
    + by destruct (cost_truthy None).
  - intros (resp & Hin & Hc & Hne). exists resp. split; [done|].
    rewrite Hc. destruct (cost_truthy (Some q)) eqn:Ht; [done|].
    by apply cost_truthy_false in Ht.
Qed.

(** X8. When no case reports a negative cost, the cost that the body of
    [evaluate_answer_correctness] returns for a batch is never the number
    zero: it is a positive sum, or the string "N/A", and it is "N/A"
    exactly when every case reports no cost or the cost zero. *)
Theorem batch_cost_never_zero (name : string) (responses : EvaluationResult)
    (r : EACResult) :
  eac_finish name false responses = Ok (ResultsDict r) ->
  Forall (fun resp => forall q, cost resp = Some q -> (0 <= q)%Qc)
         (eac_results r) ->
  eac_cost r <> CostNum (Q2Qc 0)
  /\ (forall q, eac_cost r = CostNum q -> (0 < q)%Qc)
  /\ (eac_cost r = CostNA
      <-> Forall (fun resp => cost resp = None \/ cost resp = Some (Q2Qc 0))
            (eac_results r)).
Proof.
  intros Hr Hnonneg. apply eac_finish_Ok in Hr as (_ & _ & ->).
  set (l := eac_results r) in *. clearbody l.
  assert (Hall : Forall (fun q => (0 <= q)%Qc) (truthy_costs l)).
  { apply list.Forall_forall. intros q Hq.
    apply truthy_costs_elem in Hq as (resp & Hin & Hc & _).
    rewrite list.Forall_forall in Hnonneg. by apply (Hnonneg resp). }
  assert (Hpos : forall q, total_cost (truthy_costs l) = CostNum q ->
                           (0 < q)%Qc).
  { intros q. unfold total_cost.
    destruct (existsb _ (truthy_costs l)) eqn:Hany; [|discriminate].
    intros [= <-]. apply Qc_sum_pos; [done|].
    apply existsb_exists in Hany as (q & Hin & Ht).
    apply Exists_exists. exists q. split; [done|].
    intros ->. by vm_compute in Ht. }
  split; [|split; [done|]].
  - intros H. apply Hpos in H. by apply Qclt_not_eq in H.
  - destruct (total_cost_cases l) as [Hnum Hna]. split.
    + intros H. apply list.Forall_forall. intros resp Hin.
      destruct (cost resp) as [q|] eqn:Hc; [|by left]. right. f_equal.
      destruct (cost_truthy (Some q)) eqn:Ht; [|by apply cost_truthy_false].
      rewrite Hnum in H; [discriminate|].
      apply Exists_exists. exists resp.
      split; [by apply list_elem_of_In|by rewrite Hc].
    + intros H. apply Hna. eapply list.Forall_impl; [exact H|].
      simpl. intros resp [->| ->]; reflexivity.
Qed.

Lemma batch_cost_never_zero_witness :
  exists r,
    eac_finish "judge-a" false {| test_results := [ sample_test_result ] |}
    = Ok (ResultsDict r)
    /\ eac_cost r <> CostNum (Q2Qc 0).
Proof.
  eexists. split; [reflexivity|].
  apply (batch_cost_never_zero "judge-a"
           {| test_results := [ sample_test_result ] |}).
  - reflexivity.
  - constructor; [|constructor]. simpl. intros q [= <-]. discriminate.
Defined.

(** ** The polling loop as a sequence of calls *)

Section CallsFacts.

Variable method : eac_method.
Variable self : PollingEvaluation.
Variable show : bool.

Lemma judges_loop_calls (batch : list LLMTestCase) (models : list Model)
    (rd : gmap string JudgeAccum) :
  judges_loop method batch show models rd
  = calls_loop method show (map (pair batch) models) rd.
Proof.
  revert rd. induction models as [|m models IH]; intros rd; simpl; [done|].
  destruct (method batch m (ThBool show) false) as [[raw|r]|e]; simpl;
    try done.
  destruct (record_batch rd (model_name m) r); simpl; [apply IH|done].
Qed.

Lemma calls_loop_app (s1 s2 : list (list LLMTestCase * Model))
    (rd : gmap string JudgeAccum) :
  calls_loop method show (s1 ++ s2) rd
  = (do rd' <- calls_loop method show s1 rd; calls_loop method show s2 rd').
Proof.
  revert rd. induction s1 as [|[batch m] s1 IH]; intros rd; simpl; [done|].
  destruct (method batch m (ThBool show) false) as [[raw|r]|e]; simpl;
    try done.
  destruct (record_batch rd (model_name m) r); simpl; [apply IH|done].
Qed.

Lemma batches_loop_calls (test_cases : list LLMTestCase) (models : list Model)
    (indices : list nat) (rd : gmap string JudgeAccum) :
  batches_loop method self test_cases show models indices rd
  = calls_loop method show
      (schedule (map (batch_at self test_cases) indices) models) rd.
Proof.
  revert rd. induction indices as [|i indices IH]; intros rd; [done|].
  cbn [batches_loop map schedule flat_map]. fold (schedule (map (batch_at self test_cases) indices) models).
  rewrite calls_loop_app, judges_loop_calls.
  destruct (calls_loop method show _ rd); simpl; [apply IH|done].
Qed.

(** Recording a batch keeps the keys of the dictionary. *)
Lemma record_batch_dom (rd rd' : gmap string JudgeAccum) (name : string)
    (r : EACResult) :
  record_batch rd name r = Ok rd' -> dom rd' = dom rd.
Proof.
  intros H. destruct (record_batch_Ok _ _ _ _ H) as (acc & Hacc & Heq).
  rewrite Heq. apply dom_insert_lookup_L. eauto.
Qed.

Lemma calls_loop_dom (calls : list (list LLMTestCase * Model))
    (rd rd' : gmap string JudgeAccum) :
  calls_loop method show calls rd = Ok rd' -> dom rd' = dom rd.
Proof.
  revert rd. induction calls as [|[batch m] calls IH]; intros rd; simpl.
  - by intros [= <-].
  - intros H. apply rbind_Ok in H as (ret & Hret & H).
    destruct ret as [raw|r]; [discriminate|].
    apply rbind_Ok in H as (rd1 & Hrec & H).
    apply IH in H. apply record_batch_dom in Hrec. congruence.
Qed.

(** A completed loop made every one of its calls, and each returned a
    results dictionary. *)
Lemma calls_loop_all_Ok (calls : list (list LLMTestCase * Model))
    (rd rd' : gmap string JudgeAccum) :
  calls_loop method show calls rd = Ok rd' ->
  Forall (fun '(batch, model) =>
            exists r, method batch model (ThBool show) false
                      = Ok (ResultsDict r)) calls.
Proof.
  revert rd. induction calls as [|[batch m] calls IH]; intros rd; simpl.
  - constructor.
  - intros H. apply rbind_Ok in H as (ret & Hret & H).
    destruct ret as [raw|r]; [discriminate|].
    apply rbind_Ok in H as (rd1 & Hrec & H).
    constructor; [eauto|]. by apply (IH rd1).
Qed.

(** Calls that all succeed, for judges whose names are keys, complete. *)
Lemma calls_loop_completes (calls : list (list LLMTestCase * Model))
    (rd : gmap string JudgeAccum) :
  Forall (fun '(batch, model) =>
            model_name model ∈ dom rd
            /\ exists r, method batch model (ThBool show) false
                         = Ok (ResultsDict r)) calls ->
  exists rd', calls_loop method show calls rd = Ok rd'.
Proof.
  revert rd. induction calls as [|[batch m] calls IH]; intros rd Hall; simpl.
  - eauto.
  - apply Forall_cons_1 in Hall as [[Hdom [r Hr]] Hall].
    rewrite Hr. simpl. apply elem_of_dom in Hdom as [acc Hacc].
    unfold record_batch. rewrite Hacc. simpl. apply IH.
    eapply list.Forall_impl; [exact Hall|].
    intros [b m'] [Hd Hm]. split; [|done].
    rewrite dom_insert_lookup_L; [done|eauto].
Qed.

End CallsFacts.

Lemma initial_dict_dom (models : list Model) :
  dom (initial_dict models) = list_to_set (map model_name models).
Proof.
  unfold initial_dict. induction (map model_name models) as [|n names IH].
  - simpl. apply dom_empty_L.
  - simpl. rewrite dom_insert_L, IH. done.
Qed.

Lemma initial_rows (models : list Model) :
  rmap (scores_of (initial_dict models)) (map model_name models)
  = Ok (map (fun _ => []) (map model_name models)).
Proof.
  assert (Hgen : forall l, (forall n, n ∈ l -> n ∈ map model_name models) ->
            rmap (scores_of (initial_dict models)) l
            = Ok (map (fun _ => []) l)).
  { induction l as [|n l IH]; intros Hsub; simpl; [done|].
    unfold scores_of at 1. unfold initial_dict at 1.
    rewrite initial_results_dict by (apply Hsub; left).
    simpl. rewrite IH; [done|]. intros n' Hn'. apply Hsub. by right. }
  by apply Hgen.
Qed.

Lemma np_array_empty_rows (names : list string) :
  np_array (map (fun _ => []) names)
  = Ok (match names with
        | [] => Arr1 []
        | _ => Arr2 (map (fun _ => []) names) 0
        end).
Proof.
  destruct names as [|n names]; [done|]. simpl.
  assert (forallb (fun r' : list Qc => Nat.eqb (length r') 0)
            (map (fun _ => []) names) = true) as ->; [|done].
  induction names; simpl; auto.
Qed.

Lemma batches_loop_no_judges (method : eac_method) (self : PollingEvaluation)
    (test_cases : list LLMTestCase) (show : bool) (indices : list nat)
    (rd : gmap string JudgeAccum) :
  batches_loop method self test_cases show [] indices rd = Ok rd.
Proof. induction indices as [|i indices IH]; simpl; [done|apply IH]. Qed.

Lemma degenerate_runs_aux (method : eac_method) (self : PollingEvaluation)
    (test_cases : list TestCaseInput) (models : list Model) (show : bool)
    (tcs : list LLMTestCase) :
  batch_size self <> 0%Z ->
  _check_test_case_types test_cases = Ok tcs ->
  (models = [] ->
     polling_evaluation_with method self test_cases models show
     = Ok {| responses := ∅; mean_scores := Scalar NaN;
             evaluation_score := NaN |})
  /\ (tcs = [] -> models <> [] ->
        polling_evaluation_with method self test_cases models show
        = Ok {| responses := initial_dict models; mean_scores := Vector [];
                evaluation_score := NaN |}).
Proof.
  intros Hb Hcheck. unfold polling_evaluation_with. rewrite Hcheck. simpl.
  unfold num_batches, ceil_div.
  destruct (Z.eqb_spec (batch_size self) 0) as [?|_]; [done|]. simpl. split.
  - intros ->. by rewrite batches_loop_no_judges.
  - intros -> Hmodels. simpl. fold (initial_dict models).
    rewrite initial_rows. simpl. rewrite np_array_empty_rows.
    destruct (map model_name models) eqn:Hnames; [by destruct models|done].
Qed.

(** X9. A run without judges or without test cases calls no judge and
    completes (the batch size not being zero).  Without judges the result
    has no entry, the scalar [nan] as mean and [nan] as overall score;
    without test cases and with judges it has an empty accumulator per
    judge name, an empty vector of means and [nan] as overall score. *)
Theorem degenerate_runs (method : eac_method) (self : PollingEvaluation)
    (test_cases : list TestCaseInput) (models : list Model) (show : bool)
    (tcs : list LLMTestCase) :
  batch_size self <> 0%Z ->
  _check_test_case_types test_cases = Ok tcs ->
  (models = [] ->
     polling_evaluation_with method self test_cases models show
     = Ok {| responses := ∅; mean_scores := Scalar NaN;
             evaluation_score := NaN |})
  /\ (tcs = [] -> models <> [] ->
        polling_evaluation_with method self test_cases models show
        = Ok {| responses := initial_dict models; mean_scores := Vector [];
                evaluation_score := NaN |}).
Proof.
  intros Hb Hcheck.
  apply (degenerate_runs_aux method self test_cases models show tcs Hb Hcheck).
Qed.

Lemma degenerate_runs_witness :
  polling_evaluation_with (scripted_method sample_verdict) sample_engine
    (map InTestCase sample_cases) [] false
  = Ok {| responses := ∅; mean_scores := Scalar NaN; evaluation_score := NaN |}.
Proof.
  destruct (degenerate_runs (scripted_method sample_verdict) sample_engine
              (map InTestCase sample_cases) [] false sample_cases) as [H _].
  - discriminate.
  - reflexivity.
  - apply H. reflexivity.
Defined.


Lemma schedule_elem (bs : list (list LLMTestCase)) (models : list Model)
    (batch : list LLMTestCase) (model : Model) :
  (batch, model) ∈ schedule bs models <-> batch ∈ bs /\ model ∈ models.
Proof.
  unfold schedule. rewrite list_elem_of_In, in_flat_map. split.
  - intros (b & Hb & Hin). apply list_elem_of_In in Hin.
    apply list_elem_of_fmap in Hin as (m & [= -> ->] & Hm).
    split; [by apply list_elem_of_In|done].
  - intros [Hb Hm]. exists batch. split; [by apply list_elem_of_In|].
    apply list_elem_of_In, list_elem_of_fmap. eauto.
Qed.

Lemma polling_loop_as_calls (method : eac_method) (self : PollingEvaluation)
    (test_cases : list TestCaseInput) (models : list Model) (show : bool)
    (tcs : list LLMTestCase) (bs : list (list LLMTestCase)) :
  _check_test_case_types test_cases = Ok tcs ->
  batches self tcs = Ok bs ->
  polling_evaluation_with method self test_cases models show
  = (do results_dict <-
       calls_loop method show (schedule bs models) (initial_dict models);
     do rows <- rmap (scores_of results_dict) (map model_name models);
     do model_scores <- np_array rows;
     Ok {| responses := results_dict;
           mean_scores := np_mean_axis0 model_scores;
           evaluation_score :=
             py_round (np_mean_reduced (np_mean_axis0 model_scores)) 3 |}).
Proof.
  intros Hcheck Hbs. unfold polling_evaluation_with. rewrite Hcheck. simpl.
  unfold batches in Hbs.
  destruct (num_batches self tcs) as [nb|e]; simpl in *; [|discriminate].
  injection Hbs as <-. by rewrite batches_loop_calls.
Qed.



(** X11. No call is skipped and no error is caught: in the order of the
    nested loops (batch after batch, judge after judge within a batch),
    the first call of the method that raises ends the run with its error,
    and a run that completes has made every call of the schedule, each
    returning a results dictionary. *)
Theorem first_failing_call_aborts (method : eac_method)
    (self : PollingEvaluation) (test_cases : list TestCaseInput)
    (models : list Model) (show : bool) (tcs : list LLMTestCase)
    (bs : list (list LLMTestCase)) :
  _check_test_case_types test_cases = Ok tcs ->
  batches self tcs = Ok bs ->
  (forall pre batch model post e,
     schedule bs models = (pre ++ (batch, model) :: post)%list ->
     Forall (fun '(b, m) =>
               exists r, method b m (ThBool show) false = Ok (ResultsDict r))
            pre ->
     method batch model (ThBool show) false = Err e ->
     polling_evaluation_with method self test_cases models show = Err e)
  /\ (forall res,
        polling_evaluation_with method self test_cases models show = Ok res ->
        Forall (fun '(b, m) =>
                  exists r, method b m (ThBool show) false = Ok (ResultsDict r))
               (schedule bs models)).
Proof.
  intros Hcheck Hbs.
  rewrite (polling_loop_as_calls method self test_cases models show tcs bs)
    by done.
  split.
  - intros pre batch model post e Hsched Hpre He.
    rewrite Hsched, calls_loop_app.
    destruct (calls_loop_completes method show pre (initial_dict models))
      as [rd' ->].
    { apply list.Forall_forall. intros [b m] Hin. split.
      - rewrite initial_dict_dom. apply elem_of_list_to_set.
        apply list_elem_of_fmap. exists m. split; [done|].
        assert ((b, m) ∈ schedule bs models) as Hs.
        { rewrite Hsched. apply elem_of_app. by left. }
        by apply schedule_elem in Hs as [_ ?].
      - rewrite list.Forall_forall in Hpre. by apply (Hpre (b, m)). }
    simpl. by rewrite He.
  - intros res H. apply rbind_Ok in H as (rd & Hloop & _).
    by apply calls_loop_all_Ok in Hloop.
Qed.

Lemma first_failing_call_aborts_witness :
  polling_evaluation_with
    (fun batch model th raw =>
       if String.eqb (model_name model) "judge-b"
       then Err (UpstreamError "rate limit")
       else scripted_method sample_verdict batch model th raw)
    sample_engine (map InTestCase sample_cases) sample_models false
  = Err (UpstreamError "rate limit").
Proof.
  destruct (first_failing_call_aborts
              (fun batch model th raw =>
                 if String.eqb (model_name model) "judge-b"
                 then Err (UpstreamError "rate limit")
                 else scripted_method sample_verdict batch model th raw)
              sample_engine (map InTestCase sample_cases) sample_models false
              sample_cases
              [ take 3 sample_cases; take 3 (drop 3 sample_cases);
                drop 6 sample_cases ]) as [H _].
  - reflexivity.
  - reflexivity.
  - apply (H [ (take 3 sample_cases, Named "judge-a") ] (take 3 sample_cases)
             (Custom (AzureOpenAI {| azure_model := "judge-b" |}))
             [ (take 3 (drop 3 sample_cases), Named "judge-a");
               (take 3 (drop 3 sample_cases),
                Custom (AzureOpenAI {| azure_model := "judge-b" |}));
               (drop 6 sample_cases, Named "judge-a");
               (drop 6 sample_cases,
                Custom (AzureOpenAI {| azure_model := "judge-b" |})) ]).
    + reflexivity.
    + constructor; [|constructor]. eexists. vm_compute. reflexivity.
    + reflexivity.
Defined.

Section Counting.

Variable method : eac_method.
Variable show : bool.

Hypothesis one_score_per_case :
  forall batch model r,
    method batch model (ThBool show) false = Ok (ResultsDict r) ->
    length (eac_scores r) = length batch.


End Counting.





Lemma size_list_to_set_le (l : list string) :
  size (list_to_set l : gset string) <= length l.
Proof.
  induction l as [|x l IH].
  - rewrite list_to_set_nil, size_empty. done.
  - rewrite list_to_set_cons. simpl.
    destruct (decide (x ∈ (list_to_set l : gset string))) as [Hin|Hnin].
    + rewrite subseteq_union_1_L by (by apply singleton_subseteq_l). lia.
    + rewrite size_union by (by apply disjoint_singleton_l).
      rewrite size_singleton. lia.
Qed.

(** X12. A completed run returns exactly one entry per distinct judge
    name: the keys of [responses] are the names of the judges, whatever
    the method returned and however often a name is listed. *)
Theorem responses_keys (method : eac_method) (self : PollingEvaluation)
    (test_cases : list TestCaseInput) (models : list Model) (show : bool)
    (res : EvaluationResults) :
  polling_evaluation_with method self test_cases models show = Ok res ->
  dom (responses res) = list_to_set (map model_name models)
  /\ (forall model, model ∈ models ->
        is_Some (responses res !! model_name model))
  /\ size (responses res) <= length models.
Proof.
  intros Hrun.
  apply polling_evaluation_with_Ok in Hrun
    as (tcs & nb & rows & arr & _ & _ & Hloop & _).
  rewrite batches_loop_calls in Hloop. apply calls_loop_dom in Hloop.
  fold (initial_dict models) in Hloop. rewrite initial_dict_dom in Hloop.
  split; [done|]. split.
  - intros model Hin. apply elem_of_dom. rewrite Hloop.
    apply elem_of_list_to_set, list_elem_of_fmap. eauto.
  - rewrite <- size_dom, Hloop.
    rewrite <- (length_map model_name models). apply size_list_to_set_le.
Qed.

Lemma responses_keys_witness :
  dom (responses (result_of sample_run))
  = list_to_set (map model_name sample_models).
Proof.
  apply (responses_keys (scripted_method sample_verdict) sample_engine
           (map InTestCase sample_cases) sample_models false
           (result_of sample_run)).
  vm_compute. reflexivity.
Defined.



(** ** Range of the scores *)













(** ** The order of the judges *)










(** ** The adapters *)

(** X16. Each call of [generate] or [a_generate] depends on the back end
    through one kind of request only: the one that carries the prompt
    unchanged, names the adapter's own model, asks for at most 1024
    tokens, and goes through a client of the method's mode built with
    the adapter's credential.  Two back ends that agree on these
    requests give the same outcome. *)
Theorem adapter_request (up1 up2 : Client -> Call -> result PyObj)
    (environ : gmap string string) (llm : DeepEvalBaseLLM) (prompt : string)
    (async_mode : bool) :
  (forall client call,
     client_async client = async_mode ->
     client_key client
     = match api_key_of llm with
       | Some key => Some key
       | None => environ !! "AZURE_OPENAI_API_KEY"
       end ->
     call_prompt call = prompt ->
     call_model call = get_model_name llm ->
     call_max_tokens call = 1024%Z ->
     up1 client call = up2 client call) ->
  if async_mode
  then a_generate up1 environ llm prompt = a_generate up2 environ llm prompt
  else generate up1 environ llm prompt = generate up2 environ llm prompt.
Proof.
  intros H. destruct llm as [c|a|z], async_mode; simpl;
    unfold CustomCohere_a_generate, CustomCohere_generate,
      CustomCohere_load_model, CustomAnthropic_a_generate,
      CustomAnthropic_generate, CustomAnthropic_load_model,
      CustomAzureOpenAI_a_generate, CustomAzureOpenAI_generate,
      CustomAzureOpenAI_load_model;
    try (destruct (environ !! "AZURE_OPENAI_ENDPOINT"); [|done]);
    cbn [rbind]; by rewrite H.
Qed.

Lemma adapter_request_witness :
  generate silent_upstream azure_environ
    (AzureOpenAI {| azure_model := "gpt-4" |}) "prompt"
  = generate capped_upstream azure_environ
      (AzureOpenAI {| azure_model := "gpt-4" |}) "prompt".
Proof.
  apply (adapter_request silent_upstream capped_upstream azure_environ
           (AzureOpenAI {| azure_model := "gpt-4" |}) "prompt" false).
  intros client call _ _ _ _ Hmax.
  unfold capped_upstream. rewrite Hmax. reflexivity.
Defined.

(** X17. [a_generate] differs from [generate] only in the client it
    builds: when the back end answers the asynchronous client as it
    answers the synchronous one, the two methods have the same outcome. *)
Theorem a_generate_as_generate (upstream : Client -> Call -> result PyObj)
    (environ : gmap string string) (llm : DeepEvalBaseLLM) (prompt : string) :
  (forall client call,
     upstream (with_mode true client) call
     = upstream (with_mode false client) call) ->
  a_generate upstream environ llm prompt
  = generate upstream environ llm prompt.
Proof.
  intros H. destruct llm as [c|a|z]; simpl.
  - unfold CustomCohere_a_generate, CustomCohere_generate,
      CustomCohere_load_model. cbn [rbind].
    by rewrite (H (CohereClient false (cohere_api_key c))).
  - unfold CustomAnthropic_a_generate, CustomAnthropic_generate,
      CustomAnthropic_load_model. cbn [rbind].
    by rewrite (H (AnthropicClient false (anthropic_api_key a))).
  - unfold CustomAzureOpenAI_a_generate, CustomAzureOpenAI_generate,
      CustomAzureOpenAI_load_model.
    destruct (environ !! "AZURE_OPENAI_ENDPOINT") as [endpoint|]; [|done].
    cbn [rbind].
    pose proof (H (AzureClient false endpoint
                     (environ !! "AZURE_OPENAI_API_KEY")
                     (environ !! "AZURE_OPENAI_API_VERSION"))) as Hz.
    cbn [with_mode] in Hz. by rewrite Hz.
Qed.

Lemma a_generate_as_generate_witness :
  a_generate capped_upstream ∅
    (Cohere {| cohere_model := "command-r"; cohere_api_key := "k" |}) "prompt"
  = generate capped_upstream ∅
      (Cohere {| cohere_model := "command-r"; cohere_api_key := "k" |})
      "prompt".
Proof.
  apply (a_generate_as_generate capped_upstream ∅
           (Cohere {| cohere_model := "command-r"; cohere_api_key := "k" |})
           "prompt").
  intros client call. reflexivity.
Defined.





(** ** The metric constructor *)


